(** * JSON toon visualizer: node extraction and scene layout

    A shallow embedding of the core of [src/frontend_react_app/src/App.js]:
    [hashStringToInt], [intToHsl], [jsonToNodes] (with its inner closures
    [pushNode] and [walk]) and the placement computed inside [ToonScene].

    JavaScript strings are sequences of UTF-16 code units; they are modelled
    as lists of code units so that [length], [slice] and [charCodeAt] count
    what the source counts.  The mutable array [nodes] that [walk] pushes to
    is threaded through [walk] as explicit state. *)

From Stdlib Require Import String Ascii.
From Stdlib Require Import List ZArith NArith Arith Bool Lia.
From Stdlib Require Import DecimalString.
From Stdlib Require Import Reals Lra.
Import ListNotations.

(** ** JavaScript strings *)

Definition char16 := N.
Definition jsstring := list char16.

(** An ASCII literal of the source, as code units. *)
Definition lit (s : string) : jsstring :=
  map N_of_ascii (list_ascii_of_string s).

(** U+2026, the single character written in the source's template literals. *)
Definition ellipsis : jsstring := [8230%N].

(** U+0022. *)
Definition dquote : jsstring := [34%N].

(** [String(n)] and [`${n}`] for a non-negative integer [n]. *)
Definition String_nat (n : nat) : jsstring :=
  lit (NilEmpty.string_of_uint (Nat.to_uint n)).

(** [String(z)] for an integer [z]. *)
Definition String_Z (z : Z) : jsstring :=
  if (z <? 0)%Z then lit "-" ++ String_nat (Z.to_nat (- z))
  else String_nat (Z.to_nat z).

(** [a || b] on strings: the empty string is the only falsy one. *)
Definition str_or (a b : jsstring) : jsstring :=
  match a with
  | [] => b
  | _ :: _ => a
  end.

(** [s.slice(0, n)] for [0 <= n]. *)
Definition slice0 {A : Type} (n : nat) (l : list A) : list A := firstn n l.

(** ** JSON values, as [JSON.parse] returns them

    A number is carried by its [Number::toString] rendering, the only thing
    [walk] observes of it.  An object is carried by its own enumerable
    properties in [Object.keys] order; its keys are pairwise distinct, so
    that [v[k]] for the i-th key is the i-th value. *)

Unset Elimination Schemes.
Inductive json : Type :=
| JNull
| JBoolean (b : bool)
| JNumber (text : jsstring)
| JString (s : jsstring)
| JArray (items : list json)
| JObject (props : list (jsstring * json)).
Set Elimination Schemes.

(** ** Nodes *)

Inductive kind : Set :=
| KObject | KArray | KString | KNumber | KBoolean | KNull
| KTruncated | KMore | KUnknown.

Definition kind_eqb (a b : kind) : bool :=
  match a, b with
  | KObject, KObject | KArray, KArray | KString, KString
  | KNumber, KNumber | KBoolean, KBoolean | KNull, KNull
  | KTruncated, KTruncated | KMore, KMore | KUnknown, KUnknown => true
  | _, _ => false
  end.

Record node : Type := mkNode {
  keyPath : jsstring;
  label : jsstring;
  type : kind;
  sizeHint : nat
}.

(** ** hashStringToInt *)

Module Int32.
Local Open Scope Z_scope.

Definition ToUint32 (x : Z) : Z := x mod 2 ^ 32.

Definition ToInt32 (x : Z) : Z :=
  let k := x mod 2 ^ 32 in
  if 2 ^ 31 <=? k then k - 2 ^ 32 else k.

(** [a ^ b]: both operands go through ToInt32, the result is an int32. *)
Definition xor (a b : Z) : Z := Z.lxor (ToInt32 a) (ToInt32 b).

(** [Math.imul(a, b)]. *)
Definition imul (a b : Z) : Z :=
  let p := (ToUint32 a * ToUint32 b) mod 2 ^ 32 in
  if 2 ^ 31 <=? p then p - 2 ^ 32 else p.
End Int32.

Definition charCode (c : char16) : Z := Z.of_N c.

Definition hash_step (h : Z) (c : char16) : Z :=
  Int32.imul (Int32.xor h (charCode c)) 16777619.

Definition hashStringToInt (str : jsstring) : Z :=
  Z.abs (fold_left hash_step str 2166136261%Z).

(** ** intToHsl *)

Definition intToHsl (n : Z) (s l : nat) : jsstring :=
  let hue := Z.rem n 360 in
  lit "hsl(" ++ String_Z hue ++ lit " " ++ String_nat s ++ lit "% "
    ++ String_nat l ++ lit "%)".

(** ** jsonToNodes *)

Definition pushNode (keyPath label : jsstring) (type : kind) (sizeHint : nat)
    (nodes : list node) : list node :=
  nodes ++ [mkNode keyPath label type sizeHint].

(** [path || "root"]. *)
Definition pathOrRoot (path : jsstring) : jsstring := str_or path (lit "root").

(** [path ? `${path}.${k}` : k]. *)
Definition objChildPath (path k : jsstring) : jsstring :=
  match path with
  | [] => k
  | _ :: _ => path ++ lit "." ++ k
  end.

(** [`${path || "root"}[${idx}]`]. *)
Definition arrChildPath (path : jsstring) (idx : nat) : jsstring :=
  pathOrRoot path ++ lit "[" ++ String_nat idx ++ lit "]".

(** [path ? `${path}.__more__` : "__more__"]. *)
Definition objMorePath (path : jsstring) : jsstring :=
  match path with
  | [] => lit "__more__"
  | _ :: _ => path ++ lit ".__more__"
  end.

(** [`${path || "root"}.__more__`]. *)
Definition arrMorePath (path : jsstring) : jsstring :=
  pathOrRoot path ++ lit ".__more__".

(** [`+${n - 10} more`]. *)
Definition moreLabel (n : nat) : jsstring :=
  lit "+" ++ String_nat (n - 10) ++ lit " more".

(** [`${path || "root"} (… )`]: the source has a space after the ellipsis. *)
Definition truncatedLabel (path : jsstring) : jsstring :=
  pathOrRoot path ++ lit " (" ++ ellipsis ++ lit " )".

(** [v.length > 18 ? `${v.slice(0, 18)}…` : v]. *)
Definition preview (v : jsstring) : jsstring :=
  if 18 <? length v then slice0 18 v ++ ellipsis else v.

(** [`${path || "root"}: "${preview}"`]. *)
Definition stringLabel (path v : jsstring) : jsstring :=
  pathOrRoot path ++ lit ": " ++ dquote ++ preview v ++ dquote.

Definition scalarLabel (path text : jsstring) : jsstring :=
  pathOrRoot path ++ lit ": " ++ text.

(** [Math.max(1, Math.min(6, n))]. *)
Definition clampHint (n : nat) : nat := Nat.max 1 (Nat.min 6 n).

Section Walk.
(** The cap: a number of nodes. *)
Variable maxNodes : nat.

(** [walk(v, path, depth)], with the array [nodes] as state.  The two
    inner loops are [keys.slice(0, 10).forEach] and
    [v.slice(0, 10).forEach]: the counter [n] starts at 10. *)
Fixpoint walk (v : json) (path : jsstring) (depth : nat)
    (nodes : list node) {struct v} : list node :=
  if maxNodes <=? length nodes then nodes
  else if 3 <? depth then
    pushNode path (truncatedLabel path) KTruncated 1 nodes
  else
    match v with
    | JObject props =>
        let keys := map fst props in
        let nodes :=
          pushNode path (pathOrRoot path) KObject
                   (clampHint (length keys)) nodes in
        let nodes :=
          (fix forEach (n : nat) (ps : list (jsstring * json))
               (nodes : list node) {struct ps} : list node :=
             match n, ps with
             | S n', (k, c) :: ps' =>
                 forEach n' ps'
                   (walk c (objChildPath path k) (S depth) nodes)
             | _, _ => nodes
             end) 10 props nodes in
        if 10 <? length keys then
          pushNode (objMorePath path) (moreLabel (length keys)) KMore 1 nodes
        else nodes
    | JArray items =>
        let nodes :=
          pushNode path (pathOrRoot path) KArray
                   (clampHint (length items)) nodes in
        let nodes :=
          (fix forEach (n idx : nat) (its : list json)
               (nodes : list node) {struct its} : list node :=
             match n, its with
             | S n', item :: its' =>
                 forEach n' (S idx) its'
                   (walk item (arrChildPath path idx) (S depth) nodes)
             | _, _ => nodes
             end) 10 0 items nodes in
        if 10 <? length items then
          pushNode (arrMorePath path) (moreLabel (length items)) KMore 1 nodes
        else nodes
    | JString s => pushNode path (stringLabel path s) KString 1 nodes
    | JNumber text => pushNode path (scalarLabel path text) KNumber 1 nodes
    | JBoolean b =>
        pushNode path
          (scalarLabel path (if b then lit "true" else lit "false"))
          KBoolean 1 nodes
    | JNull => pushNode path (scalarLabel path (lit "null")) KNull 1 nodes
    end.

Definition jsonToNodes (value : json) : list node :=
  slice0 maxNodes (walk value [] 0 []).
End Walk.

(** The default of the parameter: [maxNodes = 60]. *)
Definition jsonToNodes_default (value : json) : list node :=
  jsonToNodes 60 value.

(** ** The same traversal on a bounded call stack

    [walkS] is [walk] where each call of [walk] takes one frame from a stack
    of [stack] frames and the engine raises [RangeError] ([None]) when none
    is left.  The loops are written with [slice0 10] as in the source. *)

Section WalkStack.
Variable maxNodes : nat.

Fixpoint forEachM {A : Type}
    (f : A -> nat -> list node -> option (list node))
    (l : list A) (idx : nat) (nodes : list node) : option (list node) :=
  match l with
  | [] => Some nodes
  | a :: l' =>
      match f a idx nodes with
      | None => None
      | Some nodes' => forEachM f l' (S idx) nodes'
      end
  end.

Fixpoint walkS (stack : nat) (v : json) (path : jsstring) (depth : nat)
    (nodes : list node) {struct stack} : option (list node) :=
  match stack with
  | 0 => None
  | S stack' =>
      if maxNodes <=? length nodes then Some nodes
      else if 3 <? depth then
        Some (pushNode path (truncatedLabel path) KTruncated 1 nodes)
      else
        match v with
        | JObject props =>
            let keys := map fst props in
            let nodes :=
              pushNode path (pathOrRoot path) KObject
                       (clampHint (length keys)) nodes in
            match
              forEachM
                (fun kc _ nodes =>
                   walkS stack' (snd kc) (objChildPath path (fst kc))
                         (S depth) nodes)
                (slice0 10 props) 0 nodes
            with
            | None => None
            | Some nodes =>
                Some (if 10 <? length keys then
                        pushNode (objMorePath path) (moreLabel (length keys))
                                 KMore 1 nodes
                      else nodes)
            end
        | JArray items =>
            let nodes :=
              pushNode path (pathOrRoot path) KArray
                       (clampHint (length items)) nodes in
            match
              forEachM
                (fun item idx nodes =>
                   walkS stack' item (arrChildPath path idx) (S depth) nodes)
                (slice0 10 items) 0 nodes
            with
            | None => None
            | Some nodes =>
                Some (if 10 <? length items then
                        pushNode (arrMorePath path) (moreLabel (length items))
                                 KMore 1 nodes
                      else nodes)
            end
        | JString s => Some (pushNode path (stringLabel path s) KString 1 nodes)
        | JNumber text =>
            Some (pushNode path (scalarLabel path text) KNumber 1 nodes)
        | JBoolean b =>
            Some (pushNode path
                    (scalarLabel path (if b then lit "true" else lit "false"))
                    KBoolean 1 nodes)
        | JNull =>
            Some (pushNode path (scalarLabel path (lit "null")) KNull 1 nodes)
        end
  end.

Definition jsonToNodesS (stack : nat) (value : json) : option (list node) :=
  match walkS stack value [] 0 [] with
  | None => None
  | Some nodes => Some (slice0 maxNodes nodes)
  end.
End WalkStack.

(** ** The placement computed by ToonScene *)

Module ToonScene.
Local Open Scope R_scope.

Definition viewBoxW : R := 900.
Definition viewBoxH : R := 520.

(** [{ ...n, x, y, fill, size, seed }].  Coordinates are real numbers:
    the rounding of IEEE doubles is not modelled. *)
Record placedNode : Type := mkPlaced {
  base : node;
  x : R;
  y : R;
  fill : jsstring;
  size : nat;
  seed : Z
}.

Definition centerX : R := viewBoxW * (55 / 100).
Definition centerY : R := viewBoxH * (52 / 100).

(** [n.sizeHint || 1]: zero is falsy. *)
Definition hintOr1 (h : nat) : nat :=
  match h with
  | O => 1%nat
  | S _ => h
  end.

(** [n.type === "object" ? 64 : n.type === "array" ? 58 :
    n.type === "string" ? 44 : 42]. *)
Definition sizeBase (k : kind) : nat :=
  match k with
  | KObject => 64
  | KArray => 58
  | KString => 44
  | _ => 42
  end%nat.

(** The callback of [nodes.map((n, i) => ...)]. *)
Definition place (n : node) (i : nat) : placedNode :=
  let angle := INR i * (62 / 100) in
  let radius := 30 + INR i * (75 / 10) in
  let x := centerX + cos angle * radius in
  let y := centerY + sin angle * radius * (75 / 100) in
  let seed :=
    hashStringToInt (str_or (keyPath n) (str_or (label n) (String_nat i))) in
  let fill :=
    match type n with
    | KObject => lit "var(--accent-primary)"
    | KArray => lit "var(--accent-success)"
    | _ => intToHsl seed 78 56
    end in
  let size :=
    (sizeBase (type n) + Nat.min 30 (hintOr1 (sizeHint n) * 6))%nat in
  mkPlaced n x y fill size seed.

(** [Array.prototype.map] with the index passed to the callback. *)
Fixpoint mapi {A B : Type} (f : A -> nat -> B) (l : list A) (i : nat)
    : list B :=
  match l with
  | [] => []
  | a :: l' => f a i :: mapi f l' (S i)
  end.

Definition placed (nodes : list node) : list placedNode :=
  mapi place nodes 0.
End ToonScene.

(** ** FNV-1a as the specification words it

    Offset basis, then per character XOR and multiplication by the prime
    with 32-bit wrap-around, then the absolute value. *)

Module Fnv1a.
Local Open Scope Z_scope.

Definition offset_basis : Z := 2166136261.
Definition prime : Z := 16777619.

(** Two's-complement wrap-around to 32 bits. *)
Definition wrap32 (z : Z) : Z := (z + 2 ^ 31) mod 2 ^ 32 - 2 ^ 31.

Definition step (h c : Z) : Z := wrap32 (Z.lxor h c * prime).

Definition hash (s : list Z) : Z := Z.abs (fold_left step s offset_basis).

(** The textbook unsigned variant, for comparison. *)
Definition step_u32 (h c : Z) : Z := (Z.lxor h c * prime) mod 2 ^ 32.

Definition hash_u32 (s : list Z) : Z := fold_left step_u32 s offset_basis.
End Fnv1a.

(** ** Induction on JSON values *)

Section JsonInd.
Variable P : json -> Prop.
Hypothesis HNull : P JNull.
Hypothesis HBoolean : forall b, P (JBoolean b).
Hypothesis HNumber : forall text, P (JNumber text).
Hypothesis HString : forall s, P (JString s).
Hypothesis HArray : forall items, Forall P items -> P (JArray items).
Hypothesis HObject :
  forall props, Forall (fun kc => P (snd kc)) props -> P (JObject props).

Fixpoint json_ind (v : json) : P v :=
  match v with
  | JNull => HNull
  | JBoolean b => HBoolean b
  | JNumber text => HNumber text
  | JString s => HString s
  | JArray items =>
      HArray items
        ((fix all (l : list json) : Forall P l :=
            match l with
            | [] => Forall_nil _
            | a :: l' => Forall_cons a (json_ind a) (all l')
            end) items)
  | JObject props =>
      HObject props
        ((fix all (l : list (jsstring * json))
            : Forall (fun kc => P (snd kc)) l :=
            match l with
            | [] => Forall_nil _
            | kc :: l' => Forall_cons kc (json_ind (snd kc)) (all l')
            end) props)
  end.
End JsonInd.

(** ** The two loops of [walk], named

    [walkProps] is the body of [keys.slice(0, 10).forEach] run over a list of
    properties, [walkItems] the body of [v.slice(0, 10).forEach] run over a
    list of items starting at index [idx]. *)

Section Loops.
Variable maxNodes : nat.

Fixpoint walkProps (path : jsstring) (depth : nat)
    (ps : list (jsstring * json)) (nodes : list node) : list node :=
  match ps with
  | [] => nodes
  | kc :: ps' =>
      walkProps path depth ps'
        (walk maxNodes (snd kc) (objChildPath path (fst kc)) (S depth) nodes)
  end.

Fixpoint walkItems (path : jsstring) (depth : nat)
    (its : list json) (idx : nat) (nodes : list node) : list node :=
  match its with
  | [] => nodes
  | item :: its' =>
      walkItems path depth its' (S idx)
        (walk maxNodes item (arrChildPath path idx) (S depth) nodes)
  end.

(** One unfolding of [walk], with the loops named. *)
Definition walk_step (v : json) (path : jsstring) (depth : nat)
    (nodes : list node) : list node :=
  if maxNodes <=? length nodes then nodes
  else if 3 <? depth then
    pushNode path (truncatedLabel path) KTruncated 1 nodes
  else
    match v with
    | JObject props =>
        let nodes1 :=
          pushNode path (pathOrRoot path) KObject
                   (clampHint (length props)) nodes in
        let nodes2 := walkProps path depth (slice0 10 props) nodes1 in
        if 10 <? length props then
          pushNode (objMorePath path) (moreLabel (length props)) KMore 1
                   nodes2
        else nodes2
    | JArray items =>
        let nodes1 :=
          pushNode path (pathOrRoot path) KArray
                   (clampHint (length items)) nodes in
        let nodes2 := walkItems path depth (slice0 10 items) 0 nodes1 in
        if 10 <? length items then
          pushNode (arrMorePath path) (moreLabel (length items)) KMore 1
                   nodes2
        else nodes2
    | JString s => pushNode path (stringLabel path s) KString 1 nodes
    | JNumber text => pushNode path (scalarLabel path text) KNumber 1 nodes
    | JBoolean b =>
        pushNode path
          (scalarLabel path (if b then lit "true" else lit "false"))
          KBoolean 1 nodes
    | JNull => pushNode path (scalarLabel path (lit "null")) KNull 1 nodes
    end.
End Loops.

(** ** Node predicates used in the statements *)

Definition is_container (k : kind) : bool :=
  match k with
  | KObject | KArray => true
  | _ => false
  end.

(** The kinds [walk] pushes after its own cap check, containers apart. *)
Definition is_leaf (k : kind) : bool :=
  match k with
  | KString | KNumber | KBoolean | KNull | KTruncated => true
  | _ => false
  end.

(** A weight in 1..6, and exactly 1 outside containers. *)
Definition weight_ok (n : node) : bool :=
  (1 <=? sizeHint n) && (sizeHint n <=? 6)
  && (is_container (type n) || (sizeHint n =? 1)).

(** ** Inputs used in the examples *)

(** [{ k0: 1, k1: 1, ... }] with [n] keys. *)
Fixpoint numbered_props (n : nat) : list (jsstring * json) :=
  match n with
  | O => []
  | S n' => numbered_props n' ++ [(lit "k" ++ String_nat n', JNumber (lit "1"))]
  end.

(** [{ a: { b: { c: { d: { e: v } } } } }]. *)
Definition nest5 (v : json) : json :=
  JObject [(lit "a",
    JObject [(lit "b",
      JObject [(lit "c",
        JObject [(lit "d",
          JObject [(lit "e", v)])])])])].

(** An object of 11 keys whose first key [n] holds [v]. *)
Definition wide_around (v : json) : json :=
  JObject ((lit "n", v) :: numbered_props 10).

(** ** What ToonScene draws from the placed nodes

    The two maps of the JSX: [placed.slice(1).map(...)] for the connectors
    and [placed.map(...)] for the bubbles.  Reading [prev.x] of an
    [undefined] array element would raise a [TypeError] ([None]). *)

Module Render.
Local Open Scope R_scope.

(** One [<path>] of the connectors: its key, the two nodes it joins and the
    midpoint of the segment between them. *)
Record connector : Type := mkConnector {
  edgeKey : jsstring;
  prev : ToonScene.placedNode;
  cur : ToonScene.placedNode;
  midX : R;
  midY : R
}.

(** The control point of [`Q ${midX + 18} ${midY - 18}`]. *)
Definition ctrlX (c : connector) : R := midX c + 18.
Definition ctrlY (c : connector) : R := midY c - 18.

(** [Array.prototype.map] with a callback that may raise. *)
Fixpoint mapiM {A B : Type} (f : A -> nat -> option B) (l : list A) (i : nat)
    : option (list B) :=
  match l with
  | [] => Some []
  | a :: l' =>
      match f a i with
      | None => None
      | Some b =>
          match mapiM f l' (S i) with
          | None => None
          | Some bs => Some (b :: bs)
          end
      end
  end.

(** The callback of [placed.slice(1).map((n, i) => ...)]. *)
Definition connect (placed : list ToonScene.placedNode)
    (n : ToonScene.placedNode) (i : nat) : option connector :=
  match nth_error placed (Nat.max 0 i) with
  | None => None
  | Some prev =>
      let midX := (ToonScene.x prev + ToonScene.x n) / 2 in
      let midY := (ToonScene.y prev + ToonScene.y n) / 2 in
      Some (mkConnector
              (lit "edge-" ++ keyPath (ToonScene.base n) ++ lit "-"
                 ++ String_nat i)
              prev n midX midY)
  end.

Definition connectors (placed : list ToonScene.placedNode)
    : option (list connector) :=
  mapiM (connect placed) (skipn 1 placed) 0.

(** What the callback of [placed.map((n) => ...)] computes before it builds
    the markup. *)
Record bubble : Type := mkBubble {
  r : R;
  wobble : Z;
  bx : R;
  by_ : R;
  highlightX : R;
  highlightY : R;
  plateHeight : R;
  textDy : R;
  fontSize : R
}.

Definition bubbleOf (n : ToonScene.placedNode) : bubble :=
  let r := INR (ToonScene.size n) / 2 in
  let wobble := (Z.rem (ToonScene.seed n) 11 - 5)%Z in
  let x := ToonScene.x n + IZR wobble * (6 / 10) in
  let y := ToonScene.y n - IZR wobble * (4 / 10) in
  mkBubble r wobble x y
    (x - r * (25 / 100)) (y - r * (25 / 100))
    (Rmax 26 (r * (42 / 100)))
    (Rmax 18 (r * (28 / 100)))
    (Rmax 11 (Rmin 15 (r * (22 / 100)))).
End Render.

(** ** The root guard of handleVisualize and the memoised node list of App *)

Fixpoint jsstring_eqb (a b : jsstring) : bool :=
  match a, b with
  | [], [] => true
  | c :: a', d :: b' => N.eqb c d && jsstring_eqb a' b'
  | _, _ => false
  end.

(** [Array.isArray(value) ? "array" : value === null ? "null" : typeof value]. *)
Definition rootType (value : json) : jsstring :=
  match value with
  | JArray _ => lit "array"
  | JNull => lit "null"
  | JObject _ => lit "object"
  | JString _ => lit "string"
  | JNumber _ => lit "number"
  | JBoolean _ => lit "boolean"
  end.

(** [rootType !== "object" && rootType !== "array"]: the value is refused. *)
Definition rootRefused (value : json) : bool :=
  negb (jsstring_eqb (rootType value) (lit "object"))
  && negb (jsstring_eqb (rootType value) (lit "array")).

(** ToBoolean on a JSON value: [null], [false], [0] and [""] are falsy.  A
    number is zero exactly when it prints as ["0"]. *)
Definition truthy (v : json) : bool :=
  match v with
  | JNull => false
  | JBoolean b => b
  | JNumber text => negb (jsstring_eqb text (lit "0"))
  | JString s => match s with [] => false | _ :: _ => true end
  | JArray _ | JObject _ => true
  end.

(** [useMemo(() => { if (!parsedValue) return [];
    return jsonToNodes(parsedValue, 60); })]. *)
Definition App_nodes (parsedValue : json) : list node :=
  if truthy parsedValue then jsonToNodes 60 parsedValue else [].

(** ** Notions used in the further statements *)

(** The kind [walk] gives to a value it expands. *)
Definition kindOf (v : json) : kind :=
  match v with
  | JNull => KNull
  | JBoolean _ => KBoolean
  | JNumber _ => KNumber
  | JString _ => KString
  | JArray _ => KArray
  | JObject _ => KObject
  end.

(** The most nodes one call of [walk] can push with [levels] levels of
    containers left below it: itself, at most 10 children, one marker. *)
Fixpoint budget_from (levels : nat) : nat :=
  match levels with
  | O => 1
  | S levels' => 2 + 10 * budget_from levels'
  end.

Definition walk_budget (depth : nat) : nat := budget_from (4 - depth).

(** Two accumulated arrays that a cap of [m] cannot tell apart: equal and
    below the cap, or both at the cap with the same first [m] nodes. *)
Definition agree (m : nat) (a b : list node) : Prop :=
  (a = b /\ length a < m)
  \/ (m <= length a /\ m <= length b /\ firstn m a = firstn m b).

(** * Properties *)

(** ** Unfolding lemmas *)

Lemma forEach_props_walkProps :
  forall maxNodes path depth n ps nodes,
    (fix forEach (n : nat) (ps : list (jsstring * json))
         (nodes : list node) {struct ps} : list node :=
       match n, ps with
       | S n', (k, c) :: ps' =>
           forEach n' ps'
             (walk maxNodes c (objChildPath path k) (S depth) nodes)
       | _, _ => nodes
       end) n ps nodes
    = walkProps maxNodes path depth (firstn n ps) nodes.
Proof.
  intros maxNodes path depth n ps; revert n.
  induction ps as [|[k c] ps IH]; intros [|n] nodes; simpl; auto.
Qed.

Lemma forEach_items_walkItems :
  forall maxNodes path depth n its idx nodes,
    (fix forEach (n idx : nat) (its : list json)
         (nodes : list node) {struct its} : list node :=
       match n, its with
       | S n', item :: its' =>
           forEach n' (S idx) its'
             (walk maxNodes item (arrChildPath path idx) (S depth) nodes)
       | _, _ => nodes
       end) n idx its nodes
    = walkItems maxNodes path depth (firstn n its) idx nodes.
Proof.
  intros maxNodes path depth n its; revert n.
  induction its as [|item its IH]; intros [|n] idx nodes; simpl; auto.
Qed.

Lemma walk_unfold :
  forall maxNodes v path depth nodes,
    walk maxNodes v path depth nodes = walk_step maxNodes v path depth nodes.
Proof.
  intros maxNodes v path depth nodes.
  destruct v; try reflexivity; unfold walk_step; cbn [walk];
    destruct (maxNodes <=? length nodes); try reflexivity;
    destruct (3 <? depth); try reflexivity; cbv zeta;
    rewrite ?length_map.
  - rewrite forEach_items_walkItems. reflexivity.
  - rewrite forEach_props_walkProps. reflexivity.
Qed.

(** ** A generic invariant of the traversal

    [Q d ns] is a property of the accumulated array [ns] at a call of [walk]
    at depth [d].  It is kept by [walk] as soon as it is kept by the guarded
    pushes (container, leaf, truncated) and by the unguarded push of the
    "more" marker on the way back from the children. *)

Lemma Forall_firstn :
  forall (A : Type) (P : A -> Prop) n (l : list A),
    Forall P l -> Forall P (firstn n l).
Proof.
  intros A P n l H; revert n.
  induction H as [|a l Ha Hl IH]; intros [|n]; simpl; auto.
Qed.

Section WalkInvariant.
Variable maxNodes : nat.
Variable Q : nat -> list node -> Prop.

Hypothesis Q_container :
  forall d ns p l k w,
    d <= 3 -> length ns < maxNodes -> Q d ns ->
    is_container k = true -> 1 <= w <= 6 ->
    Q (S d) (ns ++ [mkNode p l k w]).
Hypothesis Q_leaf :
  forall d ns p l k,
    length ns < maxNodes -> Q d ns -> is_leaf k = true ->
    Q d (ns ++ [mkNode p l k 1]).
Hypothesis Q_return : forall d ns, d <= 3 -> Q (S d) ns -> Q d ns.
Hypothesis Q_more :
  forall d ns p l,
    d <= 3 -> Q (S d) ns -> Q d (ns ++ [mkNode p l KMore 1]).

Lemma walkProps_preserves :
  forall ps,
    Forall (fun kc =>
              forall p d ns, Q d ns -> Q d (walk maxNodes (snd kc) p d ns))
           ps ->
  forall path depth ns,
    Q (S depth) ns -> Q (S depth) (walkProps maxNodes path depth ps ns).
Proof.
  induction 1 as [|kc ps Hkc _ IH]; intros path depth ns H; simpl; auto.
Qed.

Lemma walkItems_preserves :
  forall its,
    Forall (fun v => forall p d ns, Q d ns -> Q d (walk maxNodes v p d ns))
           its ->
  forall path depth idx ns,
    Q (S depth) ns -> Q (S depth) (walkItems maxNodes path depth its idx ns).
Proof.
  induction 1 as [|it its Hit _ IH]; intros path depth idx ns H; simpl; auto.
Qed.

Lemma clampHint_range : forall n, 1 <= clampHint n <= 6.
Proof. intros n. unfold clampHint. lia. Qed.

Lemma walk_preserves :
  forall v p d ns, Q d ns -> Q d (walk maxNodes v p d ns).
Proof.
  induction v as [| b | text | s | items IH | props IH] using json_ind;
    intros p d ns H; rewrite walk_unfold; unfold walk_step;
    destruct (maxNodes <=? length ns) eqn:Ecap; try exact H;
    apply Nat.leb_gt in Ecap;
    destruct (3 <? d) eqn:Edepth;
    try (apply Q_leaf; auto; fail);
    apply Nat.ltb_ge in Edepth; cbv zeta.
  - assert (Hloop :
      Q (S d)
        (walkItems maxNodes p d (slice0 10 items) 0
           (pushNode p (pathOrRoot p) KArray
              (clampHint (length items)) ns))).
    { apply walkItems_preserves.
      - apply Forall_firstn. exact IH.
      - apply Q_container; auto using clampHint_range. }
    destruct (10 <? length items).
    + apply Q_more; auto.
    + apply Q_return; auto.
  - assert (Hloop :
      Q (S d)
        (walkProps maxNodes p d (slice0 10 props)
           (pushNode p (pathOrRoot p) KObject
              (clampHint (length props)) ns))).
    { apply walkProps_preserves.
      - apply Forall_firstn. exact IH.
      - apply Q_container; auto using clampHint_range. }
    destruct (10 <? length props).
    + apply Q_more; auto.
    + apply Q_return; auto.
Qed.
End WalkInvariant.

(** ** The cap *)

Lemma walk_at_cap :
  forall maxNodes v path depth nodes,
    maxNodes <= length nodes -> walk maxNodes v path depth nodes = nodes.
Proof.
  intros maxNodes v path depth nodes H.
  rewrite walk_unfold. unfold walk_step.
  apply Nat.leb_le in H. rewrite H. reflexivity.
Qed.

Lemma walk_below_cap_deep :
  forall maxNodes v path depth nodes,
    3 < depth -> length nodes < maxNodes ->
    walk maxNodes v path depth nodes
    = nodes ++ [mkNode path (truncatedLabel path) KTruncated 1].
Proof.
  intros maxNodes v path depth nodes Hd Hc.
  rewrite walk_unfold. unfold walk_step.
  apply Nat.leb_gt in Hc. rewrite Hc.
  apply Nat.ltb_lt in Hd. rewrite Hd. reflexivity.
Qed.

Lemma walk_below_cap_shallow :
  forall maxNodes v path depth nodes,
    depth <= 3 -> length nodes < maxNodes ->
    walk maxNodes v path depth nodes
    = match v with
      | JObject props =>
          let nodes2 :=
            walkProps maxNodes path depth (slice0 10 props)
              (pushNode path (pathOrRoot path) KObject
                        (clampHint (length props)) nodes) in
          if 10 <? length props then
            pushNode (objMorePath path) (moreLabel (length props)) KMore 1
                     nodes2
          else nodes2
      | JArray items =>
          let nodes2 :=
            walkItems maxNodes path depth (slice0 10 items) 0
              (pushNode path (pathOrRoot path) KArray
                        (clampHint (length items)) nodes) in
          if 10 <? length items then
            pushNode (arrMorePath path) (moreLabel (length items)) KMore 1
                     nodes2
          else nodes2
      | JString s => pushNode path (stringLabel path s) KString 1 nodes
      | JNumber text => pushNode path (scalarLabel path text) KNumber 1 nodes
      | JBoolean b =>
          pushNode path
            (scalarLabel path (if b then lit "true" else lit "false"))
            KBoolean 1 nodes
      | JNull => pushNode path (scalarLabel path (lit "null")) KNull 1 nodes
      end.
Proof.
  intros maxNodes v path depth nodes Hd Hc.
  rewrite walk_unfold. unfold walk_step.
  apply Nat.leb_gt in Hc. rewrite Hc.
  apply Nat.ltb_ge in Hd. rewrite Hd. reflexivity.
Qed.

Lemma walk_appends :
  forall maxNodes v path depth nodes,
    exists emitted, walk maxNodes v path depth nodes = nodes ++ emitted.
Proof.
  intros maxNodes v path depth nodes.
  apply (walk_preserves maxNodes
           (fun _ ns => exists emitted, ns = nodes ++ emitted)).
  - intros d ns p l k w _ _ [e ->] _ _.
    eexists. rewrite <- app_assoc. reflexivity.
  - intros d ns p l k _ [e ->] _.
    eexists. rewrite <- app_assoc. reflexivity.
  - auto.
  - intros d ns p l _ [e ->].
    eexists. rewrite <- app_assoc. reflexivity.
  - exists []. rewrite app_nil_r. reflexivity.
Qed.

Lemma walkProps_appends :
  forall maxNodes path depth ps nodes,
    exists emitted, walkProps maxNodes path depth ps nodes = nodes ++ emitted.
Proof.
  intros maxNodes path depth ps.
  induction ps as [|kc ps IH]; intros nodes; simpl.
  - exists []. rewrite app_nil_r. reflexivity.
  - destruct (walk_appends maxNodes (snd kc) (objChildPath path (fst kc))
                (S depth) nodes) as [e1 ->].
    destruct (IH (nodes ++ e1)) as [e2 ->].
    eexists. rewrite <- app_assoc. reflexivity.
Qed.

Lemma walkItems_appends :
  forall maxNodes path depth its idx nodes,
    exists emitted,
      walkItems maxNodes path depth its idx nodes = nodes ++ emitted.
Proof.
  intros maxNodes path depth its.
  induction its as [|it its IH]; intros idx nodes; simpl.
  - exists []. rewrite app_nil_r. reflexivity.
  - destruct (walk_appends maxNodes it (arrChildPath path idx)
                (S depth) nodes) as [e1 ->].
    destruct (IH (S idx) (nodes ++ e1)) as [e2 ->].
    eexists. rewrite <- app_assoc. reflexivity.
Qed.

(** C1: for every JSON value [v] and every cap [maxNodes], the sequence
    returned by [jsonToNodes v maxNodes] has at most [maxNodes] nodes. *)
Theorem jsonToNodes_length_le_maxNodes :
  forall (maxNodes : nat) (v : json),
    length (jsonToNodes maxNodes v) <= maxNodes.
Proof.
  intros maxNodes v. unfold jsonToNodes, slice0.
  apply firstn_le_length.
Qed.

(** C2, as stated, fails: with [maxNodes = 1] and an object of 11 keys the
    array holds the container node and then, although the count has reached
    the cap, the "more" marker is pushed: two nodes are accumulated before
    the final slice. *)
Lemma walk_more_pushed_at_cap :
  let acc := walk 1 (JObject (numbered_props 11)) [] 0 [] in
  map type acc = [KObject; KMore] /\ ~ length acc <= 1.
Proof.
  vm_compute. split; [reflexivity | lia].
Qed.

(** C2, amended: a call of [walk] entered when the count has reached
    [maxNodes] emits nothing and returns the array as it is; a call only
    appends to the array; whatever is accumulated beyond position
    [maxNodes] during the traversal is a "more" marker, pushed without the
    check; the count never passes [maxNodes + 4]; the final slice returns
    the first [maxNodes] nodes. *)
Theorem walk_cap_enforcement :
  forall (maxNodes : nat) (v : json) (path : jsstring) (depth : nat)
         (nodes : list node),
    (maxNodes <= length nodes -> walk maxNodes v path depth nodes = nodes)
    /\ (exists emitted, walk maxNodes v path depth nodes = nodes ++ emitted)
    /\ Forall (fun n => type n = KMore)
               (skipn maxNodes (walk maxNodes v [] 0 []))
    /\ length (walk maxNodes v [] 0 []) <= maxNodes + 4
    /\ jsonToNodes maxNodes v = firstn maxNodes (walk maxNodes v [] 0 []).
Proof.
  intros maxNodes v path depth nodes.
  split; [apply walk_at_cap|].
  split.
  { apply walk_appends. }
  split.
  { apply (walk_preserves maxNodes
             (fun _ ns => Forall (fun n => type n = KMore) (skipn maxNodes ns))).
    - intros d ns p l k w _ Hc _ _ _.
      rewrite skipn_all2; [constructor | rewrite length_app; cbn [length]; lia].
    - intros d ns p l k Hc _ _.
      rewrite skipn_all2; [constructor | rewrite length_app; cbn [length]; lia].
    - auto.
    - intros d ns p l _ H. rewrite skipn_app. apply Forall_app. split; auto.
      destruct (maxNodes - length ns); simpl.
      + repeat constructor.
      + rewrite skipn_nil. constructor.
    - rewrite skipn_nil. constructor. }
  split.
  { assert (H : length (walk maxNodes v [] 0 []) <= maxNodes + (4 - 0)).
    { apply (walk_preserves maxNodes
               (fun d ns => length ns <= maxNodes + (4 - d))).
      - intros d ns p l k w _ Hc _ _ _. rewrite length_app; cbn [length]; lia.
      - intros d ns p l k Hc _ _. rewrite length_app; cbn [length]; lia.
      - intros d ns _ H. lia.
      - intros d ns p l Hd H. rewrite length_app; cbn [length]; lia.
      - cbn [length]; lia. }
    lia. }
  reflexivity.
Qed.

(** The excess of 4 is reached: with [maxNodes = 4] and four nested objects
    of 11 keys each, the four containers fill the cap and each of them then
    pushes its "more" marker. *)
Example walk_overrun_by_four :
  map type
    (walk 4 (wide_around (wide_around (wide_around (wide_around JNull))))
       [] 0 [])
  = [KObject; KObject; KObject; KObject; KMore; KMore; KMore; KMore].
Proof. vm_compute. reflexivity. Qed.

Lemma walk_cap_enforcement_witness :
  walk 1 (JString (lit "s")) [] 0
       [mkNode [] (lit "root") KObject 1]
  = [mkNode [] (lit "root") KObject 1].
Proof.
  apply (walk_cap_enforcement 1 (JString (lit "s")) [] 0
           [mkNode [] (lit "root") KObject 1]).
  simpl. lia.
Defined.

(** ** Depth cutoff *)

(** C3, as stated, fails on two counts.  The label the source builds is
    [`${path || "root"} (… )`], with a space between the ellipsis and the
    closing parenthesis, not ["<path> (…)"]; and a subtree reached at depth 4
    once the count has reached the cap gets no node at all. *)
Lemma truncated_label_counterexample :
  let path := lit "a.b.c.d" in
  let root := mkNode [] (lit "root") KObject 1 in
  map type (walk 60 (JObject []) path 4 []) = [KTruncated]
  /\ map label (walk 60 (JObject []) path 4 [])
     <> [path ++ lit " (" ++ ellipsis ++ lit ")"]
  /\ walk 1 (JObject []) path 4 [root] = [root].
Proof.
  vm_compute. repeat split. discriminate.
Qed.

(** C3, amended: a subtree reached at depth greater than 3 while the count
    is below the cap is not entered; exactly one node is appended for it,
    of kind truncated, with weight 1 and label ["<path or 'root'> (… )"]
    (ellipsis, space, closing parenthesis).  In particular the value
    [{a:{b:{c:{d:{e:v}}}}}] yields four object nodes and one truncated node
    for the object at [a.b.c.d], whatever [v] is. *)
Theorem walk_depth_cutoff
    (maxNodes : nat) (v : json) (path : jsstring) (depth : nat)
    (nodes : list node)
    (Hdepth : 3 < depth) (Hcap : length nodes < maxNodes) :
  walk maxNodes v path depth nodes
  = nodes ++ [mkNode path
                (str_or path (lit "root") ++ lit " (" ++ ellipsis ++ lit " )")
                KTruncated 1]
  /\ jsonToNodes_default (nest5 v)
     = [mkNode [] (lit "root") KObject 1;
        mkNode (lit "a") (lit "a") KObject 1;
        mkNode (lit "a.b") (lit "a.b") KObject 1;
        mkNode (lit "a.b.c") (lit "a.b.c") KObject 1;
        mkNode (lit "a.b.c.d")
               (lit "a.b.c.d" ++ lit " (" ++ ellipsis ++ lit " )")
               KTruncated 1].
Proof.
  split.
  - apply walk_below_cap_deep; assumption.
  - unfold jsonToNodes_default, jsonToNodes, nest5.
    repeat (rewrite walk_below_cap_shallow by (cbn; lia);
            cbn [slice0 firstn walkProps fst snd length Nat.ltb Nat.leb]).
    rewrite walk_below_cap_deep by (cbn; lia).
    reflexivity.
Qed.

Lemma walk_depth_cutoff_witness :
  walk 60 (JString (lit "deep")) (lit "a.b.c.d") 4 []
  = [] ++ [mkNode (lit "a.b.c.d")
             (str_or (lit "a.b.c.d") (lit "root")
                ++ lit " (" ++ ellipsis ++ lit " )")
             KTruncated 1].
Proof.
  apply (walk_depth_cutoff 60 (JString (lit "deep")) (lit "a.b.c.d") 4 []).
  - lia.
  - simpl. lia.
Defined.

(** ** Width cutoff *)

Lemma clampHint_wide : forall n, 6 <= n -> clampHint n = 6.
Proof. intros n H. unfold clampHint. lia. Qed.

(** C4: a container entered at depth at most 3 below the cap has its first
    10 children walked, in enumeration order, and when it has more than 10
    children exactly one "more" node follows them, labelled
    ["+<count - 10> more"], with path [path.__more__] (["__more__"] for an
    object with the empty path, [root.__more__] for an array with the empty
    path).  The children after the tenth matter through their number only.
    An object of 15 keys gives 10 child walks and ["+5 more"], an array of
    12 items 10 child walks and ["+2 more"]. *)
Theorem walk_width_cutoff
    (maxNodes : nat) (path : jsstring) (depth : nat) (nodes : list node)
    (Hdepth : depth <= 3) (Hcap : length nodes < maxNodes) :
  (forall props : list (jsstring * json),
     let visited :=
       walkProps maxNodes path depth (firstn 10 props)
         (nodes ++ [mkNode path (str_or path (lit "root")) KObject
                      (clampHint (length props))]) in
     let more :=
       mkNode match path with
              | [] => lit "__more__"
              | _ :: _ => path ++ lit ".__more__"
              end
              (lit "+" ++ String_nat (length props - 10) ++ lit " more")
              KMore 1 in
     walk maxNodes (JObject props) path depth nodes
     = if 10 <? length props then visited ++ [more] else visited)
  /\ (forall items : list json,
        let visited :=
          walkItems maxNodes path depth (firstn 10 items) 0
            (nodes ++ [mkNode path (str_or path (lit "root")) KArray
                         (clampHint (length items))]) in
        let more :=
          mkNode (str_or path (lit "root") ++ lit ".__more__")
                 (lit "+" ++ String_nat (length items - 10) ++ lit " more")
                 KMore 1 in
        walk maxNodes (JArray items) path depth nodes
        = if 10 <? length items then visited ++ [more] else visited)
  /\ (forall props : list (jsstring * json),
        10 < length props ->
        walk maxNodes (JObject props) path depth nodes
        = walk maxNodes (JObject (firstn 10 props)) path depth nodes
            ++ [mkNode (objMorePath path) (moreLabel (length props)) KMore 1])
  /\ (forall items : list json,
        10 < length items ->
        walk maxNodes (JArray items) path depth nodes
        = walk maxNodes (JArray (firstn 10 items)) path depth nodes
            ++ [mkNode (arrMorePath path) (moreLabel (length items)) KMore 1])
  /\ (forall props : list (jsstring * json),
        length props = 15 ->
        length (firstn 10 props) = 10
        /\ walk maxNodes (JObject props) path depth nodes
           = walkProps maxNodes path depth (firstn 10 props)
               (nodes ++ [mkNode path (str_or path (lit "root")) KObject 6])
             ++ [mkNode (objMorePath path) (lit "+5 more") KMore 1])
  /\ (forall items : list json,
        length items = 12 ->
        length (firstn 10 items) = 10
        /\ walk maxNodes (JArray items) path depth nodes
           = walkItems maxNodes path depth (firstn 10 items) 0
               (nodes ++ [mkNode path (str_or path (lit "root")) KArray 6])
             ++ [mkNode (arrMorePath path) (lit "+2 more") KMore 1]).
Proof.
  assert (Hobj : forall props,
            walk maxNodes (JObject props) path depth nodes
            = if 10 <? length props then
                walkProps maxNodes path depth (firstn 10 props)
                  (nodes ++ [mkNode path (pathOrRoot path) KObject
                               (clampHint (length props))])
                ++ [mkNode (objMorePath path) (moreLabel (length props))
                      KMore 1]
              else
                walkProps maxNodes path depth (firstn 10 props)
                  (nodes ++ [mkNode path (pathOrRoot path) KObject
                               (clampHint (length props))])).
  { intros props. rewrite walk_below_cap_shallow by assumption. reflexivity. }
  assert (Harr : forall items,
            walk maxNodes (JArray items) path depth nodes
            = if 10 <? length items then
                walkItems maxNodes path depth (firstn 10 items) 0
                  (nodes ++ [mkNode path (pathOrRoot path) KArray
                               (clampHint (length items))])
                ++ [mkNode (arrMorePath path) (moreLabel (length items))
                      KMore 1]
              else
                walkItems maxNodes path depth (firstn 10 items) 0
                  (nodes ++ [mkNode path (pathOrRoot path) KArray
                               (clampHint (length items))])).
  { intros items. rewrite walk_below_cap_shallow by assumption. reflexivity. }
  repeat split.
  - intros props. cbv zeta. rewrite Hobj. reflexivity.
  - intros items. cbv zeta. rewrite Harr. reflexivity.
  - intros props Hlen.
    rewrite (Hobj props), (Hobj (firstn 10 props)).
    rewrite length_firstn, firstn_firstn.
    replace (Nat.min 10 (length props)) with 10 by lia.
    replace (Nat.min 10 10) with 10 by lia.
    rewrite (clampHint_wide (length props)) by lia.
    apply Nat.ltb_lt in Hlen. rewrite Hlen. reflexivity.
  - intros items Hlen.
    rewrite (Harr items), (Harr (firstn 10 items)).
    rewrite length_firstn, firstn_firstn.
    replace (Nat.min 10 (length items)) with 10 by lia.
    replace (Nat.min 10 10) with 10 by lia.
    rewrite (clampHint_wide (length items)) by lia.
    apply Nat.ltb_lt in Hlen. rewrite Hlen. reflexivity.
  - rewrite length_firstn. lia.
  - rewrite Hobj. unfold moreLabel. rewrite H. reflexivity.
  - rewrite length_firstn. lia.
  - rewrite Harr. unfold moreLabel. rewrite H. reflexivity.
Qed.

Lemma walk_width_cutoff_witness :
  map label (walk 60 (JObject (numbered_props 15)) [] 0 [])
  = map label
      (walkProps 60 [] 0 (firstn 10 (numbered_props 15))
         ([] ++ [mkNode [] (str_or [] (lit "root")) KObject 6])
       ++ [mkNode (objMorePath []) (lit "+5 more") KMore 1]).
Proof.
  assert (Hcap : length (@nil node) < 60) by (simpl; lia).
  assert (Hdepth : 0 <= 3) by lia.
  destruct (walk_width_cutoff 60 [] 0 [] Hdepth Hcap)
    as (_ & _ & _ & _ & H15 & _).
  destruct (H15 (numbered_props 15) eq_refl) as [_ Heq].
  rewrite Heq. reflexivity.
Defined.

(** ** String leaves *)

(** C9: a string reached at depth at most 3 below the cap gets one node
    whose label is [<path or 'root'>: "<preview>"], the preview being the
    first 18 characters and one ellipsis when the string has more than 18
    characters, and the string itself otherwise.  A string of 25 characters
    is previewed by its first 18 characters and one ellipsis, 19 characters
    in all, which is not the full string. *)
Theorem walk_string_preview
    (maxNodes : nat) (s path : jsstring) (depth : nat) (nodes : list node)
    (Hdepth : depth <= 3) (Hcap : length nodes < maxNodes) :
  walk maxNodes (JString s) path depth nodes
  = nodes ++ [mkNode path
                (str_or path (lit "root") ++ lit ": " ++ dquote
                   ++ (if 18 <? length s then firstn 18 s ++ ellipsis else s)
                   ++ dquote)
                KString 1]
  /\ (length s = 25 ->
      preview s = firstn 18 s ++ [8230%N]
      /\ length (preview s) = 19
      /\ preview s <> s).
Proof.
  split.
  - rewrite walk_below_cap_shallow by assumption. reflexivity.
  - intros Hlen.
    assert (Hp : preview s = firstn 18 s ++ [8230%N]).
    { unfold preview. rewrite Hlen. reflexivity. }
    assert (Hl : length (preview s) = 19).
    { rewrite Hp, length_app, length_firstn, Hlen. reflexivity. }
    repeat split; auto.
    intros Heq. rewrite Heq in Hl. lia.
Qed.

Lemma walk_string_preview_witness :
  let s := lit "abcdefghijklmnopqrstuvwxy" in
  walk 60 (JString s) (lit "name") 1 []
  = [mkNode (lit "name")
       (lit "name: " ++ dquote ++ lit "abcdefghijklmnopqr" ++ ellipsis
          ++ dquote)
       KString 1]
  /\ preview s = lit "abcdefghijklmnopqr" ++ ellipsis.
Proof.
  assert (Hdepth : 1 <= 3) by lia.
  assert (Hcap : length (@nil node) < 60) by (simpl; lia).
  destruct (walk_string_preview 60 (lit "abcdefghijklmnopqrstuvwxy")
              (lit "name") 1 [] Hdepth Hcap) as [Hw Hp].
  split.
  - rewrite Hw. reflexivity.
  - destruct (Hp eq_refl) as [H _]. rewrite H. reflexivity.
Defined.

(** ** Weights *)

Lemma walk_weights :
  forall maxNodes v path depth nodes,
    Forall (fun n => weight_ok n = true) nodes ->
    Forall (fun n => weight_ok n = true) (walk maxNodes v path depth nodes).
Proof.
  intros maxNodes v path depth nodes.
  apply (walk_preserves maxNodes
           (fun _ ns => Forall (fun n => weight_ok n = true) ns)).
  - intros d ns p l k w _ _ H Hk Hw. apply Forall_app. split; auto.
    constructor; [|constructor].
    unfold weight_ok; cbn [sizeHint type]. rewrite Hk.
    destruct Hw as [H1 H6].
    apply Nat.leb_le in H1, H6. rewrite H1, H6. reflexivity.
  - intros d ns p l k _ H Hk. apply Forall_app. split; auto.
    constructor; [|constructor].
    unfold weight_ok; cbn [sizeHint type]. apply orb_true_r.
  - auto.
  - intros d ns p l _ H. apply Forall_app. split; auto.
Qed.

Lemma weight_ok_spec :
  forall n, weight_ok n = true ->
    1 <= sizeHint n <= 6 /\ (is_container (type n) = false -> sizeHint n = 1).
Proof.
  intros n H. unfold weight_ok in H.
  apply andb_prop in H. destruct H as [H Hk].
  apply andb_prop in H. destruct H as [H1 H6].
  apply Nat.leb_le in H1, H6. split; [lia|].
  intros Hc. rewrite Hc in Hk. simpl in Hk. apply Nat.eqb_eq in Hk. exact Hk.
Qed.

Lemma In_mapi :
  forall (A B : Type) (f : A -> nat -> B) (l : list A) (k : nat) (b : B),
    In b (ToonScene.mapi f l k) -> exists a i, In a l /\ b = f a i.
Proof.
  intros A B f l. induction l as [|a l IH]; intros k b H; simpl in H.
  - contradiction.
  - destruct H as [H | H].
    + exists a, k. split; [left; reflexivity | symmetry; exact H].
    + destruct (IH (S k) b H) as (a' & i & Hin & Heq).
      exists a', i. split; [right; exact Hin | exact Heq].
Qed.

Lemma length_mapi :
  forall (A B : Type) (f : A -> nat -> B) (l : list A) (k : nat),
    length (ToonScene.mapi f l k) = length l.
Proof.
  intros A B f l. induction l as [|a l IH]; intros k; simpl; auto.
Qed.

Lemma nth_error_mapi :
  forall (A B : Type) (f : A -> nat -> B) (l : list A) (k i : nat),
    nth_error (ToonScene.mapi f l k) i
    = option_map (fun a => f a (k + i)) (nth_error l i).
Proof.
  intros A B f l. induction l as [|a l IH]; intros k [|i]; simpl; auto.
  - rewrite Nat.add_0_r. reflexivity.
  - rewrite IH. rewrite Nat.add_succ_comm. reflexivity.
Qed.

Lemma map_base_mapi_place :
  forall (l : list node) (k : nat),
    map ToonScene.base (ToonScene.mapi ToonScene.place l k) = l.
Proof.
  induction l as [|a l IH]; intros k; simpl; [reflexivity|].
  rewrite IH. reflexivity.
Qed.

Lemma jsonToNodes_head :
  forall maxNodes v,
    exists rest,
      walk (S maxNodes) v [] 0 []
      = match v with
        | JObject props =>
            mkNode [] (lit "root") KObject (clampHint (length props))
        | JArray items =>
            mkNode [] (lit "root") KArray (clampHint (length items))
        | JString s => mkNode [] (stringLabel [] s) KString 1
        | JNumber text => mkNode [] (scalarLabel [] text) KNumber 1
        | JBoolean b =>
            mkNode [] (scalarLabel [] (if b then lit "true" else lit "false"))
                   KBoolean 1
        | JNull => mkNode [] (scalarLabel [] (lit "null")) KNull 1
        end :: rest.
Proof.
  intros maxNodes v.
  rewrite walk_below_cap_shallow by (simpl; lia).
  destruct v; try (exists []; reflexivity); cbv zeta.
  - destruct (walkItems_appends (S maxNodes) [] 0 (slice0 10 items) 0
                (pushNode [] (pathOrRoot []) KArray
                   (clampHint (length items)) [])) as [e ->].
    destruct (10 <? length items); eexists; reflexivity.
  - destruct (walkProps_appends (S maxNodes) [] 0 (slice0 10 props)
                (pushNode [] (pathOrRoot []) KObject
                   (clampHint (length props)) [])) as [e ->].
    destruct (10 <? length props); eexists; reflexivity.
Qed.

(** C10: every node returned by [jsonToNodes] has a weight between 1 and 6,
    and exactly 1 unless it is an object or array node; a container's weight
    is its number of children clamped to 1..6, so that an empty container
    has weight 1; and in the layout the part of the size that comes from
    the weight is [min 30 (weight * 6)], at most 30. *)
Theorem jsonToNodes_weight_range :
  forall (maxNodes : nat) (v : json),
    Forall (fun n => 1 <= sizeHint n <= 6
                     /\ (is_container (type n) = false -> sizeHint n = 1))
           (jsonToNodes maxNodes v)
    /\ (forall props,
          hd_error (jsonToNodes (S maxNodes) (JObject props))
          = Some (mkNode [] (lit "root") KObject
                    (Nat.max 1 (Nat.min 6 (length props)))))
    /\ (forall items,
          hd_error (jsonToNodes (S maxNodes) (JArray items))
          = Some (mkNode [] (lit "root") KArray
                    (Nat.max 1 (Nat.min 6 (length items)))))
    /\ jsonToNodes (S maxNodes) (JObject [])
       = [mkNode [] (lit "root") KObject 1]
    /\ jsonToNodes (S maxNodes) (JArray [])
       = [mkNode [] (lit "root") KArray 1]
    /\ Forall (fun p =>
                 ToonScene.size p
                 = ToonScene.sizeBase (type (ToonScene.base p))
                   + Nat.min 30 (sizeHint (ToonScene.base p) * 6)
                 /\ Nat.min 30 (sizeHint (ToonScene.base p) * 6) <= 30)
              (ToonScene.placed (jsonToNodes maxNodes v)).
Proof.
  intros maxNodes v.
  assert (Hok : Forall (fun n => weight_ok n = true) (jsonToNodes maxNodes v)).
  { unfold jsonToNodes, slice0. apply Forall_firstn.
    apply walk_weights. constructor. }
  split.
  { eapply Forall_impl; [|exact Hok]. intros n Hn.
    apply weight_ok_spec. exact Hn. }
  split.
  { intros props. unfold jsonToNodes, slice0.
    destruct (jsonToNodes_head maxNodes (JObject props)) as [rest ->].
    reflexivity. }
  split.
  { intros items. unfold jsonToNodes, slice0.
    destruct (jsonToNodes_head maxNodes (JArray items)) as [rest ->].
    reflexivity. }
  split.
  { unfold jsonToNodes. rewrite walk_below_cap_shallow by (simpl; lia).
    unfold slice0. cbn. rewrite firstn_nil. reflexivity. }
  split.
  { unfold jsonToNodes. rewrite walk_below_cap_shallow by (simpl; lia).
    unfold slice0. cbn. rewrite firstn_nil. reflexivity. }
  apply Forall_forall. intros p Hp.
  unfold ToonScene.placed in Hp.
  apply In_mapi in Hp. destruct Hp as (n & i & Hin & ->).
  rewrite Forall_forall in Hok. specialize (Hok n Hin).
  apply weight_ok_spec in Hok. destruct Hok as [[H1 H6] _].
  cbn [ToonScene.place ToonScene.size ToonScene.base].
  split; [|lia].
  destruct (sizeHint n) as [|w]; [lia | reflexivity].
Qed.

(** ** The hash *)

Section Hash.
Local Open Scope Z_scope.

Lemma signed_of_mod :
  forall z,
    Fnv1a.wrap32 z
    = if 2 ^ 31 <=? z mod 2 ^ 32 then z mod 2 ^ 32 - 2 ^ 32
      else z mod 2 ^ 32.
Proof.
  intros z. unfold Fnv1a.wrap32.
  change (2 ^ 31) with 2147483648. change (2 ^ 32) with 4294967296.
  destruct (2147483648 <=? z mod 4294967296) eqn:E.
  - apply Z.leb_le in E. Z.div_mod_to_equations. lia.
  - apply Z.leb_gt in E. Z.div_mod_to_equations. lia.
Qed.

Lemma ToInt32_mod : forall x, Int32.ToInt32 x mod 2 ^ 32 = x mod 2 ^ 32.
Proof.
  intros x. unfold Int32.ToInt32. cbv zeta.
  destruct (2 ^ 31 <=? x mod 2 ^ 32).
  - replace (x mod 2 ^ 32 - 2 ^ 32) with (x mod 2 ^ 32 + (-1) * 2 ^ 32) by ring.
    rewrite Z_mod_plus_full. apply Z.mod_mod. discriminate.
  - apply Z.mod_mod. discriminate.
Qed.

Lemma lxor_mod_pow2 :
  forall a b,
    Z.lxor a b mod 2 ^ 32 = Z.lxor (a mod 2 ^ 32) (b mod 2 ^ 32).
Proof.
  intros a b. apply Z.bits_inj'. intros i Hi.
  rewrite Z.lxor_spec.
  rewrite !Z.testbit_mod_pow2 by lia.
  rewrite Z.lxor_spec.
  destruct (i <? 32); reflexivity.
Qed.

Lemma xor_mod :
  forall h c, Int32.xor h c mod 2 ^ 32 = Z.lxor h c mod 2 ^ 32.
Proof.
  intros h c. unfold Int32.xor.
  rewrite lxor_mod_pow2, !ToInt32_mod, <- lxor_mod_pow2. reflexivity.
Qed.

Lemma hash_step_fnv1a :
  forall h c, hash_step h c = Fnv1a.step h (charCode c).
Proof.
  intros h c. unfold hash_step, Fnv1a.step, Int32.imul, Int32.ToUint32.
  cbv zeta. rewrite signed_of_mod.
  assert (E : (Int32.xor h (charCode c) mod 2 ^ 32 * (16777619 mod 2 ^ 32))
                mod 2 ^ 32
              = (Z.lxor h (charCode c) * Fnv1a.prime) mod 2 ^ 32).
  { rewrite xor_mod. rewrite <- Zmult_mod. reflexivity. }
  rewrite E. reflexivity.
Qed.

Lemma fold_hash_step_fnv1a :
  forall s h,
    fold_left hash_step s h = fold_left Fnv1a.step (map charCode s) h.
Proof.
  induction s as [|c s IH]; intros h; simpl; [reflexivity|].
  rewrite hash_step_fnv1a. apply IH.
Qed.
End Hash.

(** C6: [hashStringToInt s] is the FNV-1a style hash of the character codes
    of [s]: from the offset basis 2166136261, each character in order is
    XORed in and the result multiplied by 16777619 with wrap-around to 32
    bits (two's complement, which is what gives the absolute value taken at
    the end something to do); the result is never negative; and it is a
    function of the string alone, so two calls on the same string agree. *)
Theorem hashStringToInt_fnv1a
    (s s' : jsstring) (Hsame : s = s') :
  hashStringToInt s = Fnv1a.hash (map charCode s)
  /\ (0 <= hashStringToInt s)%Z
  /\ hashStringToInt s' = hashStringToInt s.
Proof.
  split; [|split].
  - unfold hashStringToInt, Fnv1a.hash.
    rewrite fold_hash_step_fnv1a. reflexivity.
  - unfold hashStringToInt. apply Z.abs_nonneg.
  - rewrite Hsame. reflexivity.
Qed.

Lemma hashStringToInt_fnv1a_witness :
  hashStringToInt (lit "a") = Fnv1a.hash (map charCode (lit "a"))
  /\ (0 <= hashStringToInt (lit "a"))%Z
  /\ hashStringToInt (lit "a") = hashStringToInt (lit "a").
Proof.
  apply (hashStringToInt_fnv1a (lit "a") (lit "a")). reflexivity.
Defined.

(** On ["a"] the signed wrap-around and the absolute value give 468965076,
    where the unsigned FNV-1a value is 3826002220 = 2^32 - 468965076; on the
    empty string the loop does not run and the offset basis comes back as it
    is. *)
Example hashStringToInt_a :
  hashStringToInt (lit "a") = 468965076%Z
  /\ Fnv1a.hash_u32 (map charCode (lit "a")) = 3826002220%Z
  /\ hashStringToInt [] = 2166136261%Z.
Proof. vm_compute. auto. Qed.

(** ** The layout *)

Lemma intToHsl_nonneg :
  forall seed,
    (0 <= seed)%Z ->
    intToHsl seed 78 56
    = lit "hsl(" ++ String_nat (Z.to_nat (seed mod 360)) ++ lit " 78% 56%)".
Proof.
  intros seed H. unfold intToHsl. cbv zeta.
  rewrite Z.rem_mod_nonneg by lia.
  unfold String_Z.
  assert (Hm : (0 <= seed mod 360)%Z) by (apply Z.mod_pos_bound; lia).
  apply Z.ltb_ge in Hm. rewrite Hm. reflexivity.
Qed.

(** C7: the placed node at index [i] sits at the centre
    [(0.55 * 900, 0.52 * 520)] plus
    [(radius * cos angle, 0.75 * radius * sin angle)] with
    [angle = i * 0.62] and [radius = 30 + i * 7.5]; it is filled with the
    primary palette colour for an object, the success palette colour for an
    array, and [hsl(<seed mod 360> 78% 56%)] otherwise; its size is the base
    diameter of its kind (64, 58, 44, otherwise 42) plus
    [min 30 (weight * 6)].  Coordinates are taken in the real numbers, and
    the weight is positive as in the data model. *)
Theorem placed_position_color_size
    (nodes : list node) (i : nat) (n : node)
    (Hi : nth_error nodes i = Some n) (Hweight : 1 <= sizeHint n) :
  exists p : ToonScene.placedNode,
    nth_error (ToonScene.placed nodes) i = Some p
    /\ ToonScene.base p = n
    /\ (let angle := INR i * (62 / 100) in
        let radius := 30 + INR i * (75 / 10) in
        ToonScene.x p = 55 / 100 * 900 + radius * cos angle
        /\ ToonScene.y p = 52 / 100 * 520 + 75 / 100 * radius * sin angle)%R
    /\ ToonScene.seed p
       = hashStringToInt
           (str_or (keyPath n) (str_or (label n) (String_nat i)))
    /\ ToonScene.fill p
       = match type n with
         | KObject => lit "var(--accent-primary)"
         | KArray => lit "var(--accent-success)"
         | _ =>
             lit "hsl("
               ++ String_nat (Z.to_nat (ToonScene.seed p mod 360))
               ++ lit " 78% 56%)"
         end
    /\ ToonScene.size p
       = match type n with
         | KObject => 64
         | KArray => 58
         | KString => 44
         | _ => 42
         end + Nat.min 30 (sizeHint n * 6).
Proof.
  exists (ToonScene.place n i).
  split.
  { unfold ToonScene.placed. rewrite nth_error_mapi, Hi. reflexivity. }
  split; [reflexivity|].
  split.
  { cbv zeta. cbn [ToonScene.place ToonScene.x ToonScene.y].
    unfold ToonScene.centerX, ToonScene.centerY,
      ToonScene.viewBoxW, ToonScene.viewBoxH.
    split; ring. }
  split; [reflexivity|].
  split.
  { cbn [ToonScene.place ToonScene.fill ToonScene.seed].
    assert (Hs : (0 <= hashStringToInt
                        (str_or (keyPath n)
                           (str_or (label n) (String_nat i))))%Z).
    { unfold hashStringToInt. apply Z.abs_nonneg. }
    destruct (type n); try reflexivity; apply intToHsl_nonneg; exact Hs. }
  cbn [ToonScene.place ToonScene.size].
  destruct (sizeHint n) as [|w]; [lia|].
  destruct (type n); reflexivity.
Qed.

Lemma placed_position_color_size_witness :
  exists p : ToonScene.placedNode,
    nth_error
      (ToonScene.placed
         [mkNode [] (lit "root") KObject 2;
          mkNode (lit "name") (lit "name: x") KString 1]) 1
    = Some p
    /\ ToonScene.size p = 50
    /\ ToonScene.fill p
       = lit "hsl("
           ++ String_nat
                (Z.to_nat (hashStringToInt (lit "name") mod 360))
           ++ lit " 78% 56%)".
Proof.
  assert (Hi : nth_error
                 [mkNode [] (lit "root") KObject 2;
                  mkNode (lit "name") (lit "name: x") KString 1] 1
               = Some (mkNode (lit "name") (lit "name: x") KString 1))
    by reflexivity.
  assert (Hw : 1 <= sizeHint (mkNode (lit "name") (lit "name: x") KString 1))
    by (simpl; lia).
  destruct (placed_position_color_size _ 1 _ Hi Hw)
    as (p & Hp & _ & _ & Hseed & Hfill & Hsize).
  exists p. split; [exact Hp|]. split.
  - rewrite Hsize. reflexivity.
  - rewrite Hfill, Hseed. reflexivity.
Defined.

(** C8: the layout is a function of the node sequence alone: equal inputs
    give equal placements; the placement has the length of the input, holds
    the input nodes in the input order, each placed from its own node and
    index only; the empty sequence gives the empty placement. *)
Theorem placed_pure_same_length_order
    (nodes nodes' : list node) (Hsame : nodes = nodes') :
  ToonScene.placed nodes = ToonScene.placed nodes'
  /\ length (ToonScene.placed nodes) = length nodes
  /\ map ToonScene.base (ToonScene.placed nodes) = nodes
  /\ (forall i,
        nth_error (ToonScene.placed nodes) i
        = option_map (fun n => ToonScene.place n i) (nth_error nodes i))
  /\ ToonScene.placed [] = [].
Proof.
  split; [rewrite Hsame; reflexivity|].
  split; [apply length_mapi|].
  split; [apply map_base_mapi_place|].
  split; [|reflexivity].
  intros i. unfold ToonScene.placed. rewrite nth_error_mapi. reflexivity.
Qed.

Lemma placed_pure_same_length_order_witness :
  length (ToonScene.placed [mkNode [] (lit "root") KArray 1]) = 1
  /\ map ToonScene.base (ToonScene.placed [mkNode [] (lit "root") KArray 1])
     = [mkNode [] (lit "root") KArray 1].
Proof.
  destruct (placed_pure_same_length_order
              [mkNode [] (lit "root") KArray 1]
              [mkNode [] (lit "root") KArray 1] eq_refl)
    as (_ & Hlen & Hmap & _).
  split; [exact Hlen | exact Hmap].
Defined.

(** ** Totality on a bounded stack *)

Lemma forEachM_props_enough :
  forall maxNodes stack path depth,
    (forall v p ns,
       walkS maxNodes stack v p (S depth) ns
       = Some (walk maxNodes v p (S depth) ns)) ->
    forall ps idx ns,
      forEachM
        (fun kc (_ : nat) nodes =>
           walkS maxNodes stack (snd kc) (objChildPath path (fst kc))
                 (S depth) nodes)
        ps idx ns
      = Some (walkProps maxNodes path depth ps ns).
Proof.
  intros maxNodes stack path depth H ps.
  induction ps as [|kc ps IH]; intros idx ns; simpl; [reflexivity|].
  rewrite H. apply IH.
Qed.

Lemma forEachM_items_enough :
  forall maxNodes stack path depth,
    (forall v p ns,
       walkS maxNodes stack v p (S depth) ns
       = Some (walk maxNodes v p (S depth) ns)) ->
    forall its idx ns,
      forEachM
        (fun item idx nodes =>
           walkS maxNodes stack item (arrChildPath path idx) (S depth) nodes)
        its idx ns
      = Some (walkItems maxNodes path depth its idx ns).
Proof.
  intros maxNodes stack path depth H its.
  induction its as [|it its IH]; intros idx ns; simpl; [reflexivity|].
  rewrite H. apply IH.
Qed.

Lemma walkS_enough :
  forall maxNodes stack v path depth nodes,
    1 <= stack -> 5 <= stack + depth ->
    walkS maxNodes stack v path depth nodes
    = Some (walk maxNodes v path depth nodes).
Proof.
  intros maxNodes stack.
  induction stack as [|stack IH]; intros v path depth nodes H1 H5; [lia|].
  rewrite walk_unfold. unfold walk_step. cbn [walkS].
  destruct (maxNodes <=? length nodes); [reflexivity|].
  destruct (3 <? depth) eqn:Ed; [reflexivity|].
  apply Nat.ltb_ge in Ed.
  assert (Hchild : forall v p ns,
            walkS maxNodes stack v p (S depth) ns
            = Some (walk maxNodes v p (S depth) ns)).
  { intros v' p ns. apply IH; lia. }
  destruct v; try reflexivity; cbv zeta; rewrite ?length_map.
  - rewrite (forEachM_items_enough maxNodes stack path depth Hchild).
    reflexivity.
  - rewrite (forEachM_props_enough maxNodes stack path depth Hchild).
    reflexivity.
Qed.

(** C5: extraction never fails, however deep or wide the value is: the
    recursion of [walk] stops at depth 4, so five stack frames are enough
    for every JSON value and the run on a bounded stack returns the node
    list of [jsonToNodes] instead of raising; the loops run over at most 10
    children; and the layout is defined on every node list. *)
Theorem jsonToNodes_total :
  forall (maxNodes : nat) (v : json) (spare : nat),
    jsonToNodesS maxNodes (5 + spare) v = Some (jsonToNodes maxNodes v)
    /\ length (ToonScene.placed (jsonToNodes maxNodes v))
       = length (jsonToNodes maxNodes v).
Proof.
  intros maxNodes v spare. split.
  - unfold jsonToNodesS, jsonToNodes.
    rewrite walkS_enough by lia. reflexivity.
  - apply length_mapi.
Qed.

(** Four frames are not enough for a value nested five objects deep: the
    bound of five frames is exact. *)
Example jsonToNodesS_four_frames :
  jsonToNodesS 60 4 (nest5 JNull) = None
  /\ jsonToNodesS 60 5 (nest5 JNull) = Some (jsonToNodes 60 (nest5 JNull)).
Proof. vm_compute. auto. Qed.

(** * Further properties of the code *)

(** ** The root node *)

(** X1: the list returned by [jsonToNodes] is empty exactly when the cap is
    0; otherwise it starts with the node of the root value, which has the
    empty path, the kind of the value and a label that begins with
    ["root"]. *)
Theorem jsonToNodes_root_first :
  forall (maxNodes : nat) (v : json),
    (jsonToNodes maxNodes v = [] <-> maxNodes = 0)
    /\ (forall n,
          hd_error (jsonToNodes maxNodes v) = Some n ->
          keyPath n = [] /\ type n = kindOf v
          /\ firstn 4 (label n) = lit "root").
Proof.
  intros maxNodes v. destruct maxNodes as [|m].
  - split.
    + split; reflexivity.
    + intros n H. discriminate H.
  - destruct (jsonToNodes_head m v) as [rest Hw].
    unfold jsonToNodes, slice0. rewrite Hw. cbn [firstn hd_error].
    split.
    + split; intros H; discriminate H.
    + intros n H. injection H as <-. destruct v; repeat split; reflexivity.
Qed.

Lemma jsonToNodes_root_first_witness :
  keyPath (mkNode [] (lit "root: null") KNull 1) = []
  /\ type (mkNode [] (lit "root: null") KNull 1) = kindOf JNull
  /\ firstn 4 (label (mkNode [] (lit "root: null") KNull 1)) = lit "root".
Proof.
  destruct (jsonToNodes_root_first 60 JNull) as [_ H].
  apply H. reflexivity.
Defined.

(** ** Raising the cap *)

Lemma agree_refl : forall m a, agree m a a.
Proof.
  intros m a. unfold agree.
  destruct (Nat.lt_ge_cases (length a) m); [left | right]; auto.
Qed.

Lemma agree_at_cap :
  forall m a b e e',
    m <= length a -> m <= length b -> firstn m a = firstn m b ->
    agree m (a ++ e) (b ++ e').
Proof.
  intros m a b e e' Ha Hb Hf. right.
  rewrite !length_app. repeat split; try lia.
  rewrite !firstn_app.
  replace (m - length a) with 0 by lia.
  replace (m - length b) with 0 by lia.
  simpl. rewrite !app_nil_r. exact Hf.
Qed.

Lemma agree_push :
  forall m a b n, agree m a b -> agree m (a ++ [n]) (b ++ [n]).
Proof.
  intros m a b n [[-> _] | (Ha & Hb & Hf)].
  - apply agree_refl.
  - apply agree_at_cap; assumption.
Qed.

Lemma agree_firstn :
  forall m a b, agree m a b -> firstn m a = firstn m b.
Proof.
  intros m a b [[-> _] | (_ & _ & Hf)]; auto.
Qed.

Section CapMonotone.
Variables m m' : nat.
Hypothesis Hle : m <= m'.

Lemma walk_agree_at_cap :
  forall v p d a b,
    m <= length a -> m <= length b -> firstn m a = firstn m b ->
    agree m (walk m v p d a) (walk m' v p d b).
Proof.
  intros v p d a b Ha Hb Hf.
  rewrite (walk_at_cap m v p d a Ha).
  destruct (walk_appends m' v p d b) as [e ->].
  rewrite <- (app_nil_r a). apply agree_at_cap; assumption.
Qed.

Lemma walkProps_agree :
  forall ps,
    Forall (fun kc =>
              forall p d a b,
                agree m a b ->
                agree m (walk m (snd kc) p d a) (walk m' (snd kc) p d b))
           ps ->
    forall path depth a b,
      agree m a b ->
      agree m (walkProps m path depth ps a) (walkProps m' path depth ps b).
Proof.
  induction 1 as [|kc ps Hkc _ IH]; intros path depth a b H; simpl; auto.
Qed.

Lemma walkItems_agree :
  forall its,
    Forall (fun v =>
              forall p d a b,
                agree m a b -> agree m (walk m v p d a) (walk m' v p d b))
           its ->
    forall path depth idx a b,
      agree m a b ->
      agree m (walkItems m path depth its idx a)
              (walkItems m' path depth its idx b).
Proof.
  induction 1 as [|it its Hit _ IH]; intros path depth idx a b H; simpl; auto.
Qed.

Lemma walk_agree :
  forall v p d a b,
    agree m a b -> agree m (walk m v p d a) (walk m' v p d b).
Proof.
  induction v as [| bo | text | s | items IH | props IH] using json_ind;
    intros p d a b [[-> Hlt] | (Ha & Hb & Hf)];
    try (apply walk_agree_at_cap; assumption);
    rewrite !walk_unfold; unfold walk_step;
    assert (E1 : (m <=? length b) = false) by (apply Nat.leb_gt; lia);
    assert (E2 : (m' <=? length b) = false) by (apply Nat.leb_gt; lia);
    rewrite E1, E2;
    destruct (3 <? d); try apply agree_refl; cbv zeta.
  - assert (Hloop :
      agree m
        (walkItems m p d (slice0 10 items) 0
           (pushNode p (pathOrRoot p) KArray (clampHint (length items)) b))
        (walkItems m' p d (slice0 10 items) 0
           (pushNode p (pathOrRoot p) KArray (clampHint (length items)) b))).
    { apply walkItems_agree.
      - apply Forall_firstn. exact IH.
      - apply agree_refl. }
    destruct (10 <? length items); [apply agree_push|]; exact Hloop.
  - assert (Hloop :
      agree m
        (walkProps m p d (slice0 10 props)
           (pushNode p (pathOrRoot p) KObject (clampHint (length props)) b))
        (walkProps m' p d (slice0 10 props)
           (pushNode p (pathOrRoot p) KObject (clampHint (length props)) b))).
    { apply walkProps_agree.
      - apply Forall_firstn. exact IH.
      - apply agree_refl. }
    destruct (10 <? length props); [apply agree_push|]; exact Hloop.
Qed.

Lemma jsonToNodes_prefix :
  forall v, jsonToNodes m v = firstn m (jsonToNodes m' v).
Proof.
  intros v. unfold jsonToNodes, slice0.
  rewrite firstn_firstn. replace (Nat.min m m') with m by lia.
  apply agree_firstn. apply walk_agree. apply agree_refl.
Qed.
End CapMonotone.

(** X2: raising the cap only extends the result: for [m <= m'] the list
    returned under the cap [m] is the first [m] nodes of the list returned
    under the cap [m'], so the nodes already shown keep their place and
    content. *)
Theorem jsonToNodes_cap_prefix
    (m m' : nat) (v : json) (Hle : m <= m') :
  jsonToNodes m v = firstn m (jsonToNodes m' v).
Proof.
  apply jsonToNodes_prefix. exact Hle.
Qed.

Lemma jsonToNodes_cap_prefix_witness :
  jsonToNodes 3 (JObject (numbered_props 15))
  = firstn 3 (jsonToNodes 60 (JObject (numbered_props 15))).
Proof.
  apply (jsonToNodes_cap_prefix 3 60 (JObject (numbered_props 15))). lia.
Defined.

(** ** The work of one traversal *)

Lemma walk_budget_deep : forall d, 3 < d -> walk_budget d = 1.
Proof.
  intros d H. unfold walk_budget.
  replace (4 - d) with 0 by lia. reflexivity.
Qed.

Lemma walk_budget_shallow :
  forall d, d <= 3 -> walk_budget d = 2 + 10 * walk_budget (S d).
Proof.
  intros d H. unfold walk_budget.
  replace (4 - d) with (S (4 - S d)) by lia. reflexivity.
Qed.

Section Budget.
Variable maxNodes : nat.

Lemma walkProps_budget :
  forall ps,
    Forall (fun kc =>
              forall p d ns,
                length (walk maxNodes (snd kc) p d ns)
                <= length ns + walk_budget d)
           ps ->
    forall path depth ns,
      length (walkProps maxNodes path depth ps ns)
      <= length ns + length ps * walk_budget (S depth).
Proof.
  induction 1 as [|kc ps Hkc _ IH]; intros path depth ns; simpl; [lia|].
  specialize (IH path depth
                (walk maxNodes (snd kc) (objChildPath path (fst kc))
                   (S depth) ns)).
  specialize (Hkc (objChildPath path (fst kc)) (S depth) ns).
  lia.
Qed.

Lemma walkItems_budget :
  forall its,
    Forall (fun v =>
              forall p d ns,
                length (walk maxNodes v p d ns) <= length ns + walk_budget d)
           its ->
    forall path depth idx ns,
      length (walkItems maxNodes path depth its idx ns)
      <= length ns + length its * walk_budget (S depth).
Proof.
  induction 1 as [|it its Hit _ IH]; intros path depth idx ns; simpl; [lia|].
  specialize (IH path depth (S idx)
                (walk maxNodes it (arrChildPath path idx) (S depth) ns)).
  specialize (Hit (arrChildPath path idx) (S depth) ns).
  lia.
Qed.

Lemma walk_within_budget :
  forall v p d ns,
    length (walk maxNodes v p d ns) <= length ns + walk_budget d.
Proof.
  induction v as [| bo | text | s | items IH | props IH] using json_ind;
    intros p d ns; rewrite walk_unfold; unfold walk_step;
    destruct (maxNodes <=? length ns); try lia;
    destruct (3 <? d) eqn:Ed;
    try (apply Nat.ltb_lt in Ed; rewrite (walk_budget_deep d Ed);
         unfold pushNode; rewrite length_app; cbn [length]; lia);
    apply Nat.ltb_ge in Ed; rewrite (walk_budget_shallow d Ed);
    try (unfold pushNode; rewrite length_app; cbn [length]; lia);
    cbv zeta.
  - pose proof (walkItems_budget _ (Forall_firstn _ _ 10 _ IH) p d 0
                  (pushNode p (pathOrRoot p) KArray
                     (clampHint (length items)) ns)) as Hloop.
    pose proof (firstn_le_length 10 items) as H10.
    assert (Hmul : length (firstn 10 items) * walk_budget (S d)
                   <= 10 * walk_budget (S d))
      by (apply Nat.mul_le_mono_r; exact H10).
    unfold slice0.
    destruct (10 <? length items); unfold pushNode in *;
      rewrite ?length_app in *; cbn [length] in *; lia.
  - pose proof (walkProps_budget _ (Forall_firstn _ _ 10 _ IH) p d
                  (pushNode p (pathOrRoot p) KObject
                     (clampHint (length props)) ns)) as Hloop.
    pose proof (firstn_le_length 10 props) as H10.
    assert (Hmul : length (firstn 10 props) * walk_budget (S d)
                   <= 10 * walk_budget (S d))
      by (apply Nat.mul_le_mono_r; exact H10).
    unfold slice0.
    destruct (10 <? length props); unfold pushNode in *;
      rewrite ?length_app in *; cbn [length] in *; lia.
Qed.
End Budget.

(** X3: whatever the size and nesting of the value and whatever the cap,
    one traversal pushes at most 12222 nodes: a call at depth more than 3
    pushes one node, a call at depth at most 3 pushes its own node, the
    nodes of at most 10 children and one marker. *)
Theorem walk_pushes_at_most_12222 :
  forall (maxNodes : nat) (v : json),
    length (walk maxNodes v [] 0 []) <= 12222
    /\ (forall path depth nodes,
          length (walk maxNodes v path depth nodes)
          <= length nodes + walk_budget depth)
    /\ walk_budget 0 = 12222.
Proof.
  intros maxNodes v.
  split; [|split].
  - assert (E : 12222 = walk_budget 0) by reflexivity. rewrite E.
    apply (walk_within_budget maxNodes v [] 0 []).
  - intros path depth nodes. apply walk_within_budget.
  - reflexivity.
Qed.

(** X4: a cap of 12222 or more never cuts anything: the result is the whole
    traversal, and it is the same for every such cap. *)
Theorem jsonToNodes_large_cap
    (m m' : nat) (v : json) (Hm : 12222 <= m) (Hm' : 12222 <= m') :
  jsonToNodes m v = walk m v [] 0 []
  /\ jsonToNodes m v = jsonToNodes m' v.
Proof.
  assert (E : 12222 = walk_budget 0) by reflexivity.
  rewrite E in Hm, Hm'.
  pose proof (walk_within_budget m v [] 0 []) as Hwm.
  pose proof (walk_within_budget m' v [] 0 []) as Hwm'.
  cbn [length] in Hwm, Hwm'.
  assert (Hlen : forall k, length (jsonToNodes k v) <= walk_budget 0).
  { intros k. unfold jsonToNodes, slice0. rewrite length_firstn.
    pose proof (walk_within_budget k v [] 0 []) as H.
    cbn [length] in H. lia. }
  split.
  { unfold jsonToNodes, slice0. apply firstn_all2. lia. }
  destruct (Nat.le_ge_cases m m') as [Hle | Hle].
  - rewrite (jsonToNodes_prefix m m' Hle v).
    apply firstn_all2. specialize (Hlen m'). lia.
  - rewrite (jsonToNodes_prefix m' m Hle v).
    symmetry. apply firstn_all2. specialize (Hlen m). lia.
Qed.

Lemma jsonToNodes_large_cap_witness :
  jsonToNodes 12222 (nest5 JNull) = jsonToNodes 20000 (nest5 JNull).
Proof.
  apply (jsonToNodes_large_cap 12222 20000 (nest5 JNull));
    apply Nat.leb_le; reflexivity.
Defined.

(** ** The shape of the pushed nodes *)

Section WalkEmits.
Variable maxNodes : nat.
Variable R : jsstring -> node -> Prop.

Hypothesis R_truncated :
  forall path, R path (mkNode path (truncatedLabel path) KTruncated 1).
Hypothesis R_container :
  forall path k n,
    is_container k = true ->
    R path (mkNode path (pathOrRoot path) k (clampHint n)).
Hypothesis R_objMore :
  forall path n,
    10 < n -> R path (mkNode (objMorePath path) (moreLabel n) KMore 1).
Hypothesis R_arrMore :
  forall path n,
    10 < n -> R path (mkNode (arrMorePath path) (moreLabel n) KMore 1).
Hypothesis R_string :
  forall path s, R path (mkNode path (stringLabel path s) KString 1).
Hypothesis R_scalar :
  forall path text k,
    k = KNumber \/ k = KBoolean \/ k = KNull ->
    R path (mkNode path (scalarLabel path text) k 1).
Hypothesis R_objChild :
  forall path k n, R (objChildPath path k) n -> R path n.
Hypothesis R_arrChild :
  forall path i n, R (arrChildPath path i) n -> R path n.

Lemma walkProps_emits :
  forall ps,
    Forall (fun kc =>
              forall p d ns,
                exists e,
                  walk maxNodes (snd kc) p d ns = ns ++ e /\ Forall (R p) e)
           ps ->
    forall path depth ns,
      exists e,
        walkProps maxNodes path depth ps ns = ns ++ e /\ Forall (R path) e.
Proof.
  induction 1 as [|kc ps Hkc _ IH]; intros path depth ns; simpl.
  - exists []. rewrite app_nil_r. split; constructor.
  - destruct (Hkc (objChildPath path (fst kc)) (S depth) ns)
      as (e1 & -> & H1).
    destruct (IH path depth (ns ++ e1)) as (e2 & -> & H2).
    exists (e1 ++ e2). rewrite app_assoc. split; [reflexivity|].
    apply Forall_app. split; [|exact H2].
    eapply Forall_impl; [|exact H1]. intros n. apply R_objChild.
Qed.

Lemma walkItems_emits :
  forall its,
    Forall (fun v =>
              forall p d ns,
                exists e, walk maxNodes v p d ns = ns ++ e /\ Forall (R p) e)
           its ->
    forall path depth idx ns,
      exists e,
        walkItems maxNodes path depth its idx ns = ns ++ e
        /\ Forall (R path) e.
Proof.
  induction 1 as [|it its Hit _ IH]; intros path depth idx ns; simpl.
  - exists []. rewrite app_nil_r. split; constructor.
  - destruct (Hit (arrChildPath path idx) (S depth) ns) as (e1 & -> & H1).
    destruct (IH path depth (S idx) (ns ++ e1)) as (e2 & -> & H2).
    exists (e1 ++ e2). rewrite app_assoc. split; [reflexivity|].
    apply Forall_app. split; [|exact H2].
    eapply Forall_impl; [|exact H1]. intros n. apply R_arrChild.
Qed.

Lemma walk_emits :
  forall v path d ns,
    exists e, walk maxNodes v path d ns = ns ++ e /\ Forall (R path) e.
Proof.
  induction v as [| bo | text | s | items IH | props IH] using json_ind;
    intros path d ns; rewrite walk_unfold; unfold walk_step;
    (destruct (maxNodes <=? length ns);
     [exists []; rewrite app_nil_r; split; constructor|]);
    (destruct (3 <? d);
     [eexists; split; [reflexivity|]; repeat constructor; apply R_truncated|]);
    try (eexists; split; [reflexivity|]; repeat constructor;
         first [apply R_string | apply R_scalar; auto]);
    cbv zeta.
  - destruct (walkItems_emits (firstn 10 items)
                (Forall_firstn _ _ 10 _ IH) path d 0
                (pushNode path (pathOrRoot path) KArray
                   (clampHint (length items)) ns)) as (e & He & HR).
    unfold slice0. rewrite He. unfold pushNode.
    destruct (10 <? length items) eqn:E10.
    + apply Nat.ltb_lt in E10.
      eexists. rewrite <- !app_assoc. split; [reflexivity|].
      constructor; [apply R_container; reflexivity|].
      apply Forall_app. split; [exact HR|].
      repeat constructor. apply R_arrMore. exact E10.
    + eexists. rewrite <- !app_assoc. split; [reflexivity|].
      constructor; [apply R_container; reflexivity | exact HR].
  - destruct (walkProps_emits (firstn 10 props)
                (Forall_firstn _ _ 10 _ IH) path d
                (pushNode path (pathOrRoot path) KObject
                   (clampHint (length props)) ns)) as (e & He & HR).
    unfold slice0. rewrite He. unfold pushNode.
    destruct (10 <? length props) eqn:E10.
    + apply Nat.ltb_lt in E10.
      eexists. rewrite <- !app_assoc. split; [reflexivity|].
      constructor; [apply R_container; reflexivity|].
      apply Forall_app. split; [exact HR|].
      repeat constructor. apply R_objMore. exact E10.
    + eexists. rewrite <- !app_assoc. split; [reflexivity|].
      constructor; [apply R_container; reflexivity | exact HR].
Qed.
End WalkEmits.

Lemma pathOrRoot_nonempty : forall path, pathOrRoot path <> [].
Proof. intros [|c path]; discriminate. Qed.

Lemma app_nonempty_l :
  forall (A : Type) (a b : list A), a <> [] -> a ++ b <> [].
Proof. intros A [|x a] b H; [contradiction | discriminate]. Qed.

Lemma walk_labels_nonempty :
  forall maxNodes v path d ns,
    exists e,
      walk maxNodes v path d ns = ns ++ e
      /\ Forall (fun n => label n <> []) e.
Proof.
  intros maxNodes v path d ns.
  destruct (walk_emits maxNodes (fun _ n => label n <> [])) with
    (v := v) (path := path) (d := d) (ns := ns) as (e & He & HR); eauto;
    intros; cbn [label];
    try (apply app_nonempty_l; apply pathOrRoot_nonempty);
    try apply pathOrRoot_nonempty;
    try discriminate; auto.
Qed.

(** X5: every node returned by [jsonToNodes] has a non-empty label, so the
    fallback [String(i)] of the seed is never used: the seed of the placed
    node is the hash of its path, or of its label when the path is empty,
    and neither the seed nor the fill colour depends on the position of the
    node in the sequence. *)
Theorem extracted_node_seed_independent_of_index
    (maxNodes : nat) (v : json) (n : node)
    (Hin : In n (jsonToNodes maxNodes v)) :
  label n <> []
  /\ (forall i,
        ToonScene.seed (ToonScene.place n i)
        = hashStringToInt (str_or (keyPath n) (label n)))
  /\ (forall i j,
        ToonScene.fill (ToonScene.place n i)
        = ToonScene.fill (ToonScene.place n j)).
Proof.
  assert (Hlabel : label n <> []).
  { destruct (walk_labels_nonempty maxNodes v [] 0 []) as (e & He & HR).
    unfold jsonToNodes, slice0 in Hin. rewrite He in Hin.
    cbn [app] in Hin.
    rewrite Forall_forall in HR. apply HR.
    rewrite <- (firstn_skipn maxNodes e). apply in_or_app. left. exact Hin. }
  assert (Hseed : forall i,
            ToonScene.seed (ToonScene.place n i)
            = hashStringToInt (str_or (keyPath n) (label n))).
  { intros i. cbn [ToonScene.place ToonScene.seed].
    destruct (label n) as [|c l]; [contradiction | reflexivity]. }
  split; [exact Hlabel|]. split; [exact Hseed|].
  intros i j. pose proof (Hseed i) as Hi. pose proof (Hseed j) as Hj.
  cbn [ToonScene.place ToonScene.fill ToonScene.seed] in *.
  rewrite Hi, Hj. reflexivity.
Qed.

Lemma extracted_node_seed_independent_of_index_witness :
  ToonScene.seed (ToonScene.place (mkNode [] (lit "root: null") KNull 1) 7)
  = hashStringToInt (lit "root: null").
Proof.
  assert (Hin : In (mkNode [] (lit "root: null") KNull 1)
                   (jsonToNodes 60 JNull)) by (left; reflexivity).
  destruct (extracted_node_seed_independent_of_index 60 JNull _ Hin)
    as (_ & Hseed & _).
  apply (Hseed 7).
Defined.

Lemma firstn_length_app :
  forall (A : Type) (a b : list A), firstn (length a) (a ++ b) = a.
Proof.
  intros A a b. rewrite firstn_app, firstn_all, Nat.sub_diag.
  simpl. apply app_nil_r.
Qed.

Lemma prefix_shorten :
  forall (A : Type) (a b l : list A),
    firstn (length (a ++ b)) l = a ++ b -> firstn (length a) l = a.
Proof.
  intros A a b l H.
  rewrite <- (firstn_skipn (length (a ++ b)) l), H, <- app_assoc.
  apply firstn_length_app.
Qed.

(** X6: the nodes that a call of [walk] pushes for a subtree all carry the
    path of that subtree as a prefix of their [keyPath] (children, their
    descendants, and the "more" marker alike), and the call leaves the
    nodes accumulated before it untouched. *)
Theorem walk_keyPath_prefix :
  forall (maxNodes : nat) (v : json) (path : jsstring) (depth : nat)
         (nodes : list node),
    exists pushed,
      walk maxNodes v path depth nodes = nodes ++ pushed
      /\ Forall (fun n => firstn (length path) (keyPath n) = path) pushed.
Proof.
  intros maxNodes v path depth nodes.
  apply (walk_emits maxNodes
           (fun p n => firstn (length p) (keyPath n) = p)).
  - intros p. apply firstn_all.
  - intros p k n _. apply firstn_all.
  - intros [|c p] n _; [reflexivity|]. apply firstn_length_app.
  - intros [|c p] n _; [reflexivity|]. apply firstn_length_app.
  - intros p s. apply firstn_all.
  - intros p text k _. apply firstn_all.
  - intros [|c p] k n H; [reflexivity|].
    apply (prefix_shorten _ (c :: p) (lit "." ++ k)). exact H.
  - intros [|c p] i n H; [reflexivity|].
    apply (prefix_shorten _ (c :: p)
             (lit "[" ++ String_nat i ++ lit "]")). exact H.
Qed.

(** ** Previews *)

(** X7: the preview of a string value never has more than 19 characters,
    always starts with the first 18 characters of the value, and is the
    value itself when the value has at most 18 characters and differs
    from it when the value has more than 19; the label of a string leaf is
    therefore at most 23 characters longer than its path (or than
    ["root"]). *)
Theorem preview_bounded :
  forall (s path : jsstring),
    length (preview s) <= 19
    /\ firstn 18 (preview s) = firstn 18 s
    /\ (length s <= 18 -> preview s = s)
    /\ (19 < length s -> preview s <> s)
    /\ length (stringLabel path s) <= length (pathOrRoot path) + 23.
Proof.
  intros s path.
  assert (Hcases :
            (length s <= 18 /\ preview s = s)
            \/ (18 < length s /\ preview s = firstn 18 s ++ ellipsis)).
  { unfold preview, slice0. destruct (18 <? length s) eqn:E.
    - right. apply Nat.ltb_lt in E. auto.
    - left. apply Nat.ltb_ge in E. auto. }
  assert (Hlen : length (preview s) <= 19).
  { destruct Hcases as [[H ->] | [H ->]]; [lia|].
    rewrite length_app, length_firstn. cbn [length ellipsis]. lia. }
  split; [exact Hlen|]. split; [|split; [|split]].
  - destruct Hcases as [[H ->] | [H ->]]; [reflexivity|].
    rewrite firstn_app, length_firstn.
    replace (18 - Nat.min 18 (length s)) with 0 by lia.
    rewrite firstn_firstn. cbn [firstn]. rewrite app_nil_r. reflexivity.
  - intros H18. destruct Hcases as [[_ Hp] | [H _]]; [exact Hp | lia].
  - intros H19 Heq. rewrite Heq in Hlen. lia.
  - unfold stringLabel. rewrite !length_app.
    change (length (lit ": ")) with 2. change (length dquote) with 1. lia.
Qed.

Lemma preview_bounded_witness :
  preview (lit "short") = lit "short"
  /\ preview (lit "abcdefghijklmnopqrstuvwxy")
     <> lit "abcdefghijklmnopqrstuvwxy".
Proof.
  destruct (preview_bounded (lit "short") []) as (_ & _ & Hs & _ & _).
  destruct (preview_bounded (lit "abcdefghijklmnopqrstuvwxy") [])
    as (_ & _ & _ & Hl & _).
  split.
  - apply Hs. simpl. lia.
  - apply Hl. simpl. lia.
Defined.

(** ** The hash and the unsigned FNV-1a *)

Section HashUnsigned.
Local Open Scope Z_scope.

Lemma wrap32_mod : forall z, Fnv1a.wrap32 z mod 2 ^ 32 = z mod 2 ^ 32.
Proof.
  intros z. unfold Fnv1a.wrap32.
  change (2 ^ 31) with 2147483648. change (2 ^ 32) with 4294967296.
  Z.div_mod_to_equations. lia.
Qed.

Lemma wrap32_range : forall z, - 2 ^ 31 <= Fnv1a.wrap32 z < 2 ^ 31.
Proof.
  intros z. unfold Fnv1a.wrap32.
  change (2 ^ 31) with 2147483648. change (2 ^ 32) with 4294967296.
  Z.div_mod_to_equations. lia.
Qed.

Lemma step_congruent :
  forall h h' c,
    h mod 2 ^ 32 = h' mod 2 ^ 32 ->
    Fnv1a.step h c mod 2 ^ 32 = Fnv1a.step_u32 h' c mod 2 ^ 32.
Proof.
  intros h h' c H. unfold Fnv1a.step, Fnv1a.step_u32.
  rewrite wrap32_mod. rewrite Z.mod_mod by discriminate.
  rewrite (Zmult_mod (Z.lxor h c)), (Zmult_mod (Z.lxor h' c)).
  rewrite (lxor_mod_pow2 h c), (lxor_mod_pow2 h' c), H. reflexivity.
Qed.

Lemma fold_step_congruent :
  forall s h h',
    h mod 2 ^ 32 = h' mod 2 ^ 32 ->
    fold_left Fnv1a.step s h mod 2 ^ 32
    = fold_left Fnv1a.step_u32 s h' mod 2 ^ 32.
Proof.
  induction s as [|c s IH]; intros h h' H; simpl; [exact H|].
  apply IH. apply step_congruent. exact H.
Qed.

Lemma fold_step_range :
  forall s h,
    s <> [] -> - 2 ^ 31 <= fold_left Fnv1a.step s h < 2 ^ 31.
Proof.
  induction s as [|c s IH]; intros h Hs; [contradiction|].
  simpl. destruct s as [|c' s].
  - simpl. apply wrap32_range.
  - apply IH. discriminate.
Qed.

Lemma fold_step_u32_range :
  forall s h,
    0 <= h < 2 ^ 32 -> 0 <= fold_left Fnv1a.step_u32 s h < 2 ^ 32.
Proof.
  induction s as [|c s IH]; intros h Hh; simpl; [exact Hh|].
  apply IH. unfold Fnv1a.step_u32. apply Z.mod_pos_bound. reflexivity.
Qed.
End HashUnsigned.

(** X8: on a non-empty string [hashStringToInt] is the unsigned 32-bit
    FNV-1a hash [u] of the character codes folded at 2^31: it returns [u]
    when [u < 2^31] and [2^32 - u] otherwise, hence a value between 0 and
    2^31; on the empty string it returns the offset basis 2166136261. *)
Theorem hashStringToInt_folds_unsigned_fnv1a
    (s : jsstring) (Hs : s <> []) :
  (let u := Fnv1a.hash_u32 (map charCode s) in
   hashStringToInt s = if u <? 2 ^ 31 then u else 2 ^ 32 - u)%Z
  /\ (0 <= hashStringToInt s <= 2 ^ 31)%Z
  /\ hashStringToInt [] = 2166136261%Z.
Proof.
  assert (Hs' : map charCode s <> []).
  { destruct s; [contradiction | discriminate]. }
  pose proof (fold_step_range (map charCode s) Fnv1a.offset_basis Hs') as Hr.
  pose proof (fold_step_congruent (map charCode s)
                Fnv1a.offset_basis Fnv1a.offset_basis eq_refl) as Hc.
  assert (Hb : (0 <= Fnv1a.offset_basis < 2 ^ 32)%Z)
    by (unfold Fnv1a.offset_basis; split; [discriminate | reflexivity]).
  pose proof (fold_step_u32_range (map charCode s) Fnv1a.offset_basis Hb)
    as Hu.
  unfold hashStringToInt. rewrite fold_hash_step_fnv1a.
  unfold Fnv1a.hash_u32. cbv zeta.
  change Fnv1a.offset_basis with 2166136261%Z in *.
  set (S := fold_left Fnv1a.step (map charCode s) 2166136261%Z) in *.
  set (U := fold_left Fnv1a.step_u32 (map charCode s) 2166136261%Z) in *.
  rewrite (Z.mod_small U) in Hc by exact Hu.
  change (2 ^ 31)%Z with 2147483648%Z in *.
  change (2 ^ 32)%Z with 4294967296%Z in *.
  split; [|split; [|reflexivity]].
  - destruct (U <? 2147483648)%Z eqn:E.
    + apply Z.ltb_lt in E. revert Hc. Z.div_mod_to_equations. lia.
    + apply Z.ltb_ge in E. revert Hc. Z.div_mod_to_equations. lia.
  - lia.
Qed.

Lemma hashStringToInt_folds_unsigned_fnv1a_witness :
  hashStringToInt (lit "a") = (2 ^ 32 - 3826002220)%Z.
Proof.
  assert (Hs : lit "a" <> []) by discriminate.
  destruct (hashStringToInt_folds_unsigned_fnv1a (lit "a") Hs) as [H _].
  rewrite H. reflexivity.
Defined.

(** ** Sizes and the wobble *)

Lemma placed_size_range :
  forall maxNodes v p,
    In p (ToonScene.placed (jsonToNodes maxNodes v)) ->
    48 <= ToonScene.size p <= 94
    /\ ToonScene.size p
       = ToonScene.sizeBase (type (ToonScene.base p))
         + Nat.min 30 (sizeHint (ToonScene.base p) * 6)
    /\ 1 <= sizeHint (ToonScene.base p) <= 6.
Proof.
  intros maxNodes v p Hp.
  unfold ToonScene.placed in Hp. apply In_mapi in Hp.
  destruct Hp as (n & i & Hin & ->).
  assert (Hok : weight_ok n = true).
  { assert (H : Forall (fun n => weight_ok n = true) (jsonToNodes maxNodes v)).
    { unfold jsonToNodes, slice0. apply Forall_firstn.
      apply walk_weights. constructor. }
    rewrite Forall_forall in H. apply H. exact Hin. }
  apply weight_ok_spec in Hok. destruct Hok as [[H1 H6] Hleaf].
  cbn [ToonScene.place ToonScene.size ToonScene.base].
  assert (Hh : ToonScene.hintOr1 (sizeHint n) = sizeHint n).
  { destruct (sizeHint n); [lia | reflexivity]. }
  rewrite Hh. split; [|split; [reflexivity | lia]].
  destruct (type n) eqn:Et; cbn [ToonScene.sizeBase]; try lia;
    rewrite Hleaf by reflexivity; cbn; lia.
Qed.

(** X9: every bubble drawn for an extracted node has a diameter between 48
    and 94; a container with 5 children or more gets the largest diameter of
    its kind (94 for an object, 88 for an array), because the weight 6
    times 6 is cut to 30 as the weight 5 times 6 already is. *)
Theorem extracted_bubble_sizes
    (maxNodes : nat) (v : json) (p : ToonScene.placedNode)
    (Hin : In p (ToonScene.placed (jsonToNodes maxNodes v))) :
  48 <= ToonScene.size p <= 94
  /\ (5 <= sizeHint (ToonScene.base p) ->
      ToonScene.size p = ToonScene.sizeBase (type (ToonScene.base p)) + 30)
  /\ (type (ToonScene.base p) = KObject ->
      5 <= sizeHint (ToonScene.base p) -> ToonScene.size p = 94)
  /\ (type (ToonScene.base p) = KArray ->
      5 <= sizeHint (ToonScene.base p) -> ToonScene.size p = 88).
Proof.
  destruct (placed_size_range maxNodes v p Hin) as (Hr & Hs & Hw).
  split; [exact Hr|]. split; [|split].
  - intros H5. rewrite Hs. lia.
  - intros Hk H5. rewrite Hs, Hk. cbn [ToonScene.sizeBase]. lia.
  - intros Hk H5. rewrite Hs, Hk. cbn [ToonScene.sizeBase]. lia.
Qed.

Lemma extracted_bubble_sizes_witness :
  48 <= ToonScene.size
          (ToonScene.place (mkNode [] (lit "root: null") KNull 1) 0) <= 94.
Proof.
  assert (Hin : In (ToonScene.place (mkNode [] (lit "root: null") KNull 1) 0)
                   (ToonScene.placed (jsonToNodes 60 JNull)))
    by (left; reflexivity).
  apply (extracted_bubble_sizes 60 JNull _ Hin).
Defined.

Section RenderBounds.
Local Open Scope R_scope.

Lemma INR_48 : INR 48 = 48.
Proof. rewrite INR_IZR_INZ. reflexivity. Qed.

Lemma INR_94 : INR 94 = 94.
Proof. rewrite INR_IZR_INZ. reflexivity. Qed.

Lemma INR_40 : INR 40 = 40.
Proof. rewrite INR_IZR_INZ. reflexivity. Qed.

Lemma wobble_range :
  forall seed : Z,
    (0 <= seed)%Z -> (-5 <= Z.rem seed 11 - 5 <= 5)%Z.
Proof.
  intros seed H. rewrite Z.rem_mod_nonneg by lia.
  pose proof (Z.mod_pos_bound seed 11 ltac:(lia)). lia.
Qed.
End RenderBounds.

(** X10: the label plate, the text offset and the font size of a bubble are
    written as clamps of the radius, but for every extracted node the radius
    lies between 24 and 47 and the clamps always give the same values: a
    plate height of 26, a text offset of 18 and a font size of 11. *)
Theorem extracted_bubble_plate_constant
    (maxNodes : nat) (v : json) (p : ToonScene.placedNode)
    (Hin : In p (ToonScene.placed (jsonToNodes maxNodes v))) :
  (24 <= Render.r (Render.bubbleOf p) <= 47
   /\ Render.plateHeight (Render.bubbleOf p) = 26
   /\ Render.textDy (Render.bubbleOf p) = 18
   /\ Render.fontSize (Render.bubbleOf p) = 11)%R.
Proof.
  destruct (placed_size_range maxNodes v p Hin) as ([Hlo Hhi] & _ & _).
  apply le_INR in Hlo, Hhi. rewrite INR_48 in Hlo. rewrite INR_94 in Hhi.
  cbn [Render.bubbleOf Render.r Render.plateHeight Render.textDy
       Render.fontSize].
  set (s := INR (ToonScene.size p)) in *.
  split; [lra|]. split; [|split].
  - apply Rmax_left. lra.
  - apply Rmax_left. lra.
  - rewrite Rmin_right by lra. apply Rmax_left. lra.
Qed.

Lemma extracted_bubble_plate_constant_witness :
  (Render.fontSize
     (Render.bubbleOf
        (ToonScene.place (mkNode [] (lit "root: null") KNull 1) 0)) = 11)%R.
Proof.
  assert (Hin : In (ToonScene.place (mkNode [] (lit "root: null") KNull 1) 0)
                   (ToonScene.placed (jsonToNodes 60 JNull)))
    by (left; reflexivity).
  apply (extracted_bubble_plate_constant 60 JNull _ Hin).
Defined.

(** X11: for every node list, the wobble of a placed node is an integer
    between -5 and 5, because its seed is never negative; the bubble is
    therefore drawn at most 3 units to the side of and 2 units above or
    below the position computed by the layout. *)
Theorem placed_wobble_range
    (nodes : list node) (p : ToonScene.placedNode)
    (Hin : In p (ToonScene.placed nodes)) :
  (0 <= ToonScene.seed p)%Z
  /\ (-5 <= Render.wobble (Render.bubbleOf p) <= 5)%Z
  /\ (-3 <= Render.bx (Render.bubbleOf p) - ToonScene.x p <= 3)%R
  /\ (-2 <= Render.by_ (Render.bubbleOf p) - ToonScene.y p <= 2)%R.
Proof.
  assert (Hseed : (0 <= ToonScene.seed p)%Z).
  { unfold ToonScene.placed in Hin. apply In_mapi in Hin.
    destruct Hin as (n & i & _ & ->).
    cbn [ToonScene.place ToonScene.seed].
    unfold hashStringToInt. apply Z.abs_nonneg. }
  pose proof (wobble_range (ToonScene.seed p) Hseed) as [Hlo Hhi].
  cbn [Render.bubbleOf Render.wobble Render.bx Render.by_].
  apply IZR_le in Hlo, Hhi.
  set (w := IZR (Z.rem (ToonScene.seed p) 11 - 5)) in *.
  split; [exact Hseed|]. split; [apply wobble_range; exact Hseed|].
  split; lra.
Qed.

Lemma placed_wobble_range_witness :
  (-5 <= Render.wobble
           (Render.bubbleOf
              (ToonScene.place (mkNode [] (lit "root") KArray 1) 0)) <= 5)%Z.
Proof.
  assert (Hin : In (ToonScene.place (mkNode [] (lit "root") KArray 1) 0)
                   (ToonScene.placed [mkNode [] (lit "root") KArray 1]))
    by (left; reflexivity).
  apply (placed_wobble_range [mkNode [] (lit "root") KArray 1] _ Hin).
Defined.

(** ** The spiral *)

Section Spiral.
Local Open Scope R_scope.

Lemma place_on_spiral :
  forall (n : node) (i : nat),
    let radius := 30 + INR i * (75 / 10) in
    let dx := ToonScene.x (ToonScene.place n i) - ToonScene.centerX in
    let dy := ToonScene.y (ToonScene.place n i) - ToonScene.centerY in
    dx * dx + (dy / (75 / 100)) * (dy / (75 / 100)) = radius * radius
    /\ - radius <= dx <= radius
    /\ - (75 / 100 * radius) <= dy <= 75 / 100 * radius.
Proof.
  intros n i. cbv zeta.
  cbn [ToonScene.place ToonScene.x ToonScene.y].
  set (a := INR i * (62 / 100)).
  assert (Hr : 0 <= 30 + INR i * (75 / 10)).
  { pose proof (pos_INR i). lra. }
  set (rad := 30 + INR i * (75 / 10)) in *.
  pose proof (COS_bound a) as [Hc1 Hc2].
  pose proof (SIN_bound a) as [Hs1 Hs2].
  pose proof (sin2_cos2 a) as Hsc. unfold Rsqr in Hsc.
  split; [|split].
  - replace (ToonScene.centerX + cos a * rad - ToonScene.centerX)
      with (cos a * rad) by ring.
    replace ((ToonScene.centerY + sin a * rad * (75 / 100)
              - ToonScene.centerY) / (75 / 100))
      with (sin a * rad) by field.
    replace (cos a * rad * (cos a * rad) + sin a * rad * (sin a * rad))
      with (rad * rad * (sin a * sin a + cos a * cos a)) by ring.
    rewrite Hsc. ring.
  - replace (ToonScene.centerX + cos a * rad - ToonScene.centerX)
      with (cos a * rad) by ring.
    split; nra.
  - replace (ToonScene.centerY + sin a * rad * (75 / 100)
             - ToonScene.centerY)
      with (75 / 100 * (sin a * rad)) by ring.
    split; nra.
Qed.
End Spiral.

(** X12: the placed nodes lie on a flattened spiral around the centre
    (495, 270.4): the node at index [i] is at horizontal distance at most
    [30 + 7.5 i] and vertical distance at most [0.75 (30 + 7.5 i)] from the
    centre, and, the vertical offset stretched back by 0.75, at distance
    exactly [30 + 7.5 i].  Coordinates are real numbers. *)
Theorem placed_on_spiral
    (nodes : list node) (i : nat) (p : ToonScene.placedNode)
    (Hi : nth_error (ToonScene.placed nodes) i = Some p) :
  (let radius := 30 + INR i * (75 / 10) in
   let dx := ToonScene.x p - 495 in
   let dy := ToonScene.y p - 2704 / 10 in
   dx * dx + (dy / (75 / 100)) * (dy / (75 / 100)) = radius * radius
   /\ - radius <= dx <= radius
   /\ - (75 / 100 * radius) <= dy <= 75 / 100 * radius)%R.
Proof.
  unfold ToonScene.placed in Hi. rewrite nth_error_mapi in Hi.
  destruct (nth_error nodes i) as [n|]; [|discriminate].
  cbn [option_map Nat.add] in Hi. injection Hi as <-.
  pose proof (place_on_spiral n i) as H. cbv zeta in H.
  replace ToonScene.centerX with 495%R in H
    by (unfold ToonScene.centerX, ToonScene.viewBoxW; lra).
  replace ToonScene.centerY with (2704 / 10)%R in H
    by (unfold ToonScene.centerY, ToonScene.viewBoxH; lra).
  exact H.
Qed.

Lemma placed_on_spiral_witness :
  (- (30 + INR 0 * (75 / 10))
   <= ToonScene.x (ToonScene.place (mkNode [] (lit "root") KArray 1) 0) - 495
   <= 30 + INR 0 * (75 / 10))%R.
Proof.
  assert (Hi : nth_error (ToonScene.placed [mkNode [] (lit "root") KArray 1]) 0
               = Some (ToonScene.place (mkNode [] (lit "root") KArray 1) 0))
    by reflexivity.
  apply (placed_on_spiral [mkNode [] (lit "root") KArray 1] 0 _ Hi).
Defined.

(** X13: the centres of the first 41 placed nodes (indices 0 to 40) are
    inside the 900 by 520 view box.  Coordinates are real numbers. *)
Theorem placed_first_41_inside_viewBox
    (nodes : list node) (i : nat) (p : ToonScene.placedNode)
    (Hi : nth_error (ToonScene.placed nodes) i = Some p)
    (Hsmall : i <= 40) :
  (0 <= ToonScene.x p <= ToonScene.viewBoxW
   /\ 0 <= ToonScene.y p <= ToonScene.viewBoxH)%R.
Proof.
  unfold ToonScene.placed in Hi. rewrite nth_error_mapi in Hi.
  destruct (nth_error nodes i) as [n|]; [|discriminate].
  cbn [option_map Nat.add] in Hi. injection Hi as <-.
  pose proof (place_on_spiral n i) as H. cbv zeta in H.
  destruct H as (_ & Hx & Hy).
  apply le_INR in Hsmall. rewrite INR_40 in Hsmall.
  pose proof (pos_INR i) as Hpos.
  unfold ToonScene.centerX, ToonScene.centerY, ToonScene.viewBoxW,
    ToonScene.viewBoxH in *.
  split; split; lra.
Qed.

Lemma placed_first_41_inside_viewBox_witness :
  (0 <= ToonScene.x (ToonScene.place (mkNode [] (lit "root") KArray 1) 0)
   <= ToonScene.viewBoxW)%R.
Proof.
  assert (Hi : nth_error (ToonScene.placed [mkNode [] (lit "root") KArray 1]) 0
               = Some (ToonScene.place (mkNode [] (lit "root") KArray 1) 0))
    by reflexivity.
  assert (Hsmall : 0 <= 40) by lia.
  apply (placed_first_41_inside_viewBox
           [mkNode [] (lit "root") KArray 1] 0 _ Hi Hsmall).
Defined.

(** ** The connectors *)

Lemma mapiM_connect :
  forall (placed l : list ToonScene.placedNode) (k : nat),
    k + length l <= length placed ->
    exists cs,
      Render.mapiM (Render.connect placed) l k = Some cs
      /\ length cs = length l
      /\ forall i c,
           nth_error cs i = Some c ->
           nth_error placed (k + i) = Some (Render.prev c)
           /\ nth_error l i = Some (Render.cur c)
           /\ Render.midX c
              = ((ToonScene.x (Render.prev c) + ToonScene.x (Render.cur c))
                 / 2)%R
           /\ Render.midY c
              = ((ToonScene.y (Render.prev c) + ToonScene.y (Render.cur c))
                 / 2)%R.
Proof.
  intros placed l. induction l as [|a l IH]; intros k Hk.
  - exists []. split; [reflexivity|]. split; [reflexivity|].
    intros [|i] c H; discriminate H.
  - cbn [length] in Hk. cbn [Render.mapiM].
    unfold Render.connect at 1. cbn [Nat.max].
    destruct (nth_error placed k) as [pv|] eqn:Epv.
    2:{ apply nth_error_None in Epv. lia. }
    destruct (IH (S k)) as (cs & -> & Hlen & Hcs); [lia|].
    eexists. split; [reflexivity|]. split; [cbn [length]; lia|].
    intros [|i] c H.
    + cbn [nth_error] in H. injection H as <-.
      cbn [Render.prev Render.cur Render.midX Render.midY nth_error].
      rewrite Nat.add_0_r. repeat split. exact Epv.
    + cbn [nth_error] in H. destruct (Hcs i c H) as (H1 & H2 & H3 & H4).
      rewrite Nat.add_succ_r. cbn [nth_error]. repeat split; assumption.
Qed.

(** X14: drawing the connectors never reads past the array: for every list
    of placed nodes the map succeeds, it yields one connector fewer than
    there are nodes (none for the empty list), and the connector at index
    [i] joins the node at index [i] to the node at index [i + 1], its
    control point lying 18 to the right of and 18 above the midpoint of the
    two. *)
Theorem connectors_join_neighbours :
  forall placed : list ToonScene.placedNode,
    exists cs,
      Render.connectors placed = Some cs
      /\ length cs = length placed - 1
      /\ forall i c,
           nth_error cs i = Some c ->
           nth_error placed i = Some (Render.prev c)
           /\ nth_error placed (S i) = Some (Render.cur c)
           /\ (Render.ctrlX c
               = (ToonScene.x (Render.prev c) + ToonScene.x (Render.cur c)) / 2
                 + 18)%R
           /\ (Render.ctrlY c
               = (ToonScene.y (Render.prev c) + ToonScene.y (Render.cur c)) / 2
                 - 18)%R.
Proof.
  intros placed. unfold Render.connectors.
  destruct (mapiM_connect placed (skipn 1 placed) 0) as (cs & Hcs & Hlen & H).
  { rewrite length_skipn. lia. }
  exists cs. split; [exact Hcs|]. split.
  { rewrite Hlen, length_skipn. reflexivity. }
  intros i c Hc. destruct (H i c Hc) as (H1 & H2 & H3 & H4).
  cbn [Nat.add] in H1. split; [exact H1|]. split.
  - destruct placed as [|a rest]; [destruct i; discriminate H2|].
    cbn [skipn] in H2. exact H2.
  - unfold Render.ctrlX, Render.ctrlY. rewrite H3, H4. split; reflexivity.
Qed.

(** ** The root guard *)

(** X15: handleVisualize refuses exactly the roots that are neither an
    object nor an array; a root it accepts is truthy, so that App passes it
    to [jsonToNodes] with the cap 60 and shows between 1 and 60 nodes, the
    first of which is the root container with the empty path. *)
Theorem accepted_root_renders
    (value : json) (Haccepted : rootRefused value = false) :
  is_container (kindOf value) = true
  /\ truthy value = true
  /\ App_nodes value = jsonToNodes 60 value
  /\ 1 <= length (App_nodes value) <= 60
  /\ (exists n rest,
        App_nodes value = n :: rest
        /\ keyPath n = [] /\ type n = kindOf value)
  /\ (forall v, rootRefused v = negb (is_container (kindOf v))).
Proof.
  assert (Hall : forall v, rootRefused v = negb (is_container (kindOf v))).
  { intros v. destruct v; reflexivity. }
  assert (Hc : is_container (kindOf value) = true).
  { rewrite Hall in Haccepted.
    destruct (is_container (kindOf value)); [reflexivity | discriminate]. }
  assert (Ht : truthy value = true).
  { destruct value; try discriminate Hc; reflexivity. }
  assert (Hn : App_nodes value = jsonToNodes 60 value).
  { unfold App_nodes. rewrite Ht. reflexivity. }
  destruct (jsonToNodes_head 59 value) as [rest Hw].
  assert (Hj : exists n rest',
             jsonToNodes 60 value = n :: rest'
             /\ keyPath n = [] /\ type n = kindOf value).
  { unfold jsonToNodes, slice0. rewrite Hw. cbn [firstn].
    eexists. eexists. split; [reflexivity|].
    destruct value; split; reflexivity. }
  split; [exact Hc|]. split; [exact Ht|]. split; [exact Hn|].
  rewrite Hn. split; [|split; [exact Hj | exact Hall]].
  split.
  - destruct Hj as (n & rest' & -> & _). cbn [length]. lia.
  - unfold jsonToNodes, slice0. apply firstn_le_length.
Qed.

Lemma accepted_root_renders_witness :
  1 <= length (App_nodes (JArray [])) <= 60.
Proof.
  assert (Haccepted : rootRefused (JArray []) = false) by reflexivity.
  apply (accepted_root_renders (JArray []) Haccepted).
Defined.
